(** * tardis-node: Binance mappers and the mapper registry

    A shallow embedding of [src/mappers/binance.ts] (the trades, book-change
    and derivative-ticker mappers with their [CircularBuffer]) and of
    [src/mappers/index.ts] (the three mapper tables and the [normalize*]
    entry points), with the properties the specification states about them.

    Conventions of the embedding:
    - sequence ids, event times and [Date] values are integer-valued
      doubles, each modelled by its value ([Z]); the sum [lastUpdateId + 1]
      is rounded as a double is ([Js.add]); a [Date] is its
      epoch-millisecond value, at most 8.64e15 in magnitude, where adding
      three minutes is exact;
    - an optional field ([snapshotProcessed?: boolean]) is an [option], with
      [None] for JavaScript's [undefined];
    - the object [symbolToDepthInfoMapping] is a finite map from strings,
      with the keys the code stores; the mapper tables are looked up as
      objects are, the names inherited from [Object.prototype] included;
    - a generator is run to completion: [map] returns the events it yielded,
      the state it left behind and the exception that ended it, if any. *)

From Stdlib Require Import ZArith String Ascii.
From stdpp Require Import gmap strings list.


(** ** JavaScript strings and arrays *)

Module Js.

(** A string is the list of its characters, each below 256; [isAscii]
    says that all are below 128. *)
Fixpoint isAscii (s : string) : bool :=
  match s with
  | EmptyString => true
  | String c s' => (N_of_ascii c <? 128)%N && isAscii s'
  end.

(** [String.prototype.toUpperCase] on ASCII text: the letters [a] to [z]
    go to [A] to [Z], every other ASCII character stays.  (Past ASCII the
    method follows the Unicode tables, which are not modelled; stream names
    are ASCII.) *)
Definition upperChar (c : ascii) : ascii :=
  let n := N_of_ascii c in
  if ((97 <=? n) && (n <=? 122))%N then ascii_of_N (n - 32) else c.

Fixpoint toUpperCase (s : string) : string :=
  match s with
  | EmptyString => EmptyString
  | String c s' => String (upperChar c) (toUpperCase s')
  end.

(** [s.split(sep)[0]]: the part of [s] before the first [sep]. *)
Fixpoint splitHead (sep : ascii) (s : string) : string :=
  match s with
  | EmptyString => EmptyString
  | String c s' => if Ascii.eqb c sep then EmptyString else String c (splitHead sep s')
  end.

(** [s.endsWith(t)] *)
Definition endsWith (s t : string) : bool :=
  let ls := String.length s in
  let lt := String.length t in
  if (lt <=? ls)%nat then String.eqb (substring (ls - lt) lt s) t else false.

(** [s.includes(t)] *)
Fixpoint includes (s t : string) : bool :=
  String.prefix t s ||
  match s with
  | EmptyString => false
  | String _ s' => includes s' t
  end.

(** Numbers are IEEE 754 doubles.  An integer-valued double is modelled
    by its value; [toDouble x] is the value of the double nearest to the
    integer [x], a tie going to the even significand.  Every integer up to
    2^53 in magnitude is a double; past that the doubles are the multiples
    of a power of two.  (No sum below reaches Infinity.) *)
Definition toDouble (x : Z) : Z :=
  if (Z.abs x <=? 9007199254740992)%Z then x
  else
    let unit := (2 ^ (Z.log2 (Z.abs x) - 52))%Z in
    let q := (x / unit)%Z in
    let r := (x mod unit)%Z in
    let half := (unit / 2)%Z in
    ((if (r <? half)%Z then q
      else if (half <? r)%Z then q + 1
      else if Z.even q then q else q + 1) * unit)%Z.

(** [x + y] on integer-valued doubles: the exact sum, rounded. *)
Definition add (x y : Z) : Z := toDouble (x + y).
Arguments add : simpl never.

(** [Number.MAX_SAFE_INTEGER] and [Number.isSafeInteger], on integers. *)
Definition MAX_SAFE_INTEGER : Z := 9007199254740991.

Definition isSafeInteger (x : Z) : bool := (Z.abs x <=? MAX_SAFE_INTEGER)%Z.

(** An array is a list of slots; a slot may be a hole.  Reading a hole or
    reading out of range gives [undefined] ([None]). *)
Definition array_get {T} (a : list (option T)) (i : nat) : option T :=
  match a !! i with
  | Some slot => slot
  | None => None
  end.

(** [a[i] = v]: in range it overwrites, at or past the end it extends the
    array, leaving holes between the old end and [i]. *)
Definition array_set {T} (a : list (option T)) (i : nat) (v : T) : list (option T) :=
  if (i <? length a)%nat then <[i := Some v]> a
  else a ++ replicate (i - length a) None ++ [Some v].

End Js.

(** ** CircularBuffer *)

Module CircularBuffer.

Record t (T : Type) : Type := mk {
  _buffer : list (option T);
  _index : nat;
  _bufferSize : nat
}.
Arguments mk {T}.
Arguments _buffer {T}.
Arguments _index {T}.
Arguments _bufferSize {T}.

(** [new CircularBuffer(bufferSize)] *)
Definition new {T} (bufferSize : nat) : t T :=
  mk [] 0 bufferSize.

(** [append(value)]: the popped value and the buffer afterwards.  The
    only buffer the mappers build has size 200; for size 0 JavaScript's
    [%] gives NaN, which [Nat.modulo] does not model. *)
Definition append {T} (b : t T) (value : T) : option T * t T :=
  let isFull := (length (_buffer b) =? _bufferSize b)%nat in
  let poppedValue := if isFull then Js.array_get (_buffer b) (_index b) else None in
  (poppedValue,
   mk (Js.array_set (_buffer b) (_index b) value)
      ((_index b + 1) mod _bufferSize b)
      (_bufferSize b)).

(** [items()]: the values the generator yields, first to last. *)
Definition items {T} (b : t T) : list (option T) :=
  (fun i => Js.array_get (_buffer b) ((_index b + i) mod length (_buffer b)))
    <$> seq 0 (length (_buffer b)).

Definition count {T} (b : t T) : nat := length (_buffer b).

Definition clear {T} (b : t T) : t T :=
  mk [] 0 (_bufferSize b).

(** Appending a list of values one after the other, as repeated calls do. *)
Definition appendAll {T} (b : t T) (vs : list T) : t T :=
  foldl (fun acc v => snd (append acc v)) b vs.


(** *** The buffer as a bounded queue *)

Section facts.
Context {T : Type}.
Implicit Types (b : t T) (q : list T) (v : T).

Lemma rot_lookup (a : list (option T)) (k i : nat) :
k ≤ length a → i < length a →
(drop k a ++ take k a) !! i = a !! ((k + i) mod length a).
Proof.
intros Hk Hi.
destruct (decide (k + i < length a)) as [Hlt|Hge].
- rewrite Nat.mod_small by lia.
  rewrite lookup_app_l by (rewrite length_drop; lia).
  by rewrite lookup_drop.
- assert ((k + i) mod length a = k + i - length a) as ->.
  { symmetry. apply (Nat.mod_unique _ _ 1); lia. }
  rewrite lookup_app_r by (rewrite length_drop; lia).
  rewrite length_drop, lookup_take_lt by lia.
  f_equal. lia.
Qed.

Lemma items_rotation b :
_index b ≤ length (_buffer b) →
items b = drop (_index b) (_buffer b) ++ take (_index b) (_buffer b).
Proof.
intros Hk. unfold items. apply list_eq. intros i.
rewrite list_lookup_fmap.
destruct (decide (i < length (_buffer b))) as [Hi|Hi].
- rewrite lookup_seq_lt by done. simpl.
  rewrite rot_lookup by done.
  unfold Js.array_get.
  destruct (lookup_lt_is_Some_2 (_buffer b) ((_index b + i) mod length (_buffer b))) as [x Hx].
  { apply Nat.mod_upper_bound. lia. }
  by rewrite Hx.
- rewrite lookup_seq_ge by lia. simpl.
  symmetry. apply lookup_ge_None.
  rewrite length_app, length_drop, length_take. lia.
Qed.
(** [represents b q]: the buffer holds the queue [q], oldest first. *)
Definition represents b q : Prop :=
  0 < _bufferSize b ∧
  length (_buffer b) ≤ _bufferSize b ∧
  (if decide (length (_buffer b) < _bufferSize b)
   then _index b = length (_buffer b)
   else _index b < _bufferSize b) ∧
  drop (_index b) (_buffer b) ++ take (_index b) (_buffer b) = Some <$> q.

(** What [append] does to the queue: push at the back, and drop the
    front when the queue already has [n] entries. *)
Definition enqueue (n : nat) q v : list T :=
  if decide (length q < n) then q ++ [v] else drop 1 q ++ [v].

Lemma represents_length b q :
  represents b q → length q = length (_buffer b).
Proof.
  intros (_ & Hle & Hidx & Hrot).
  apply (f_equal length) in Hrot.
  rewrite length_app, length_drop, length_take, length_fmap in Hrot.
  case_decide; lia.
Qed.

Lemma represents_new n : 0 < n → represents (new n) [].
Proof.
  intros Hn. unfold represents, new; simpl.
  repeat split; try lia. by case_decide.
Qed.

Lemma represents_clear b : 0 < _bufferSize b → represents (clear b) [].
Proof. apply represents_new. Qed.

Lemma represents_items b q : represents b q → items b = Some <$> q.
Proof.
  intros (Hn & Hle & Hidx & Hrot).
  rewrite items_rotation; [done|].
  case_decide; lia.
Qed.

Lemma represents_append b q v :
  represents b q →
  represents (append b v).2 (enqueue (_bufferSize b) q v).
Proof.
  intros Hrep. pose proof (represents_length _ _ Hrep) as Hlen.
  destruct Hrep as (Hn & Hle & Hidx & Hrot).
  destruct b as [buf idx n]; simpl in *.
  unfold represents, enqueue, Js.array_set; simpl.
  rewrite Hlen.
  destruct (decide (length buf < n)) as [Hroom|Hfull].
  - (* room left: the value goes at the end *)
    subst idx. rewrite drop_all, take_ge in Hrot by lia. simpl in Hrot.
    assert ((length buf <? length buf) = false) as -> by (apply Nat.ltb_ge; lia).
    rewrite Nat.sub_diag. simpl.
    rewrite length_app. simpl.
    split; [done|]. split; [lia|].
    destruct (decide (length buf + 1 < n)) as [Hlt|Hge].
    + rewrite Nat.mod_small by lia.
      split; [done|].
      rewrite drop_ge, take_ge by (rewrite length_app; simpl; lia).
      simpl. by rewrite fmap_app, Hrot.
    + assert (length buf + 1 = n) as <- by lia.
      rewrite Nat.Div0.mod_same.
      split; [lia|].
      rewrite drop_0, take_0, app_nil_r. by rewrite fmap_app, Hrot.
  - (* full: the value overwrites the oldest slot *)
    assert (length buf = n) as Hbuf by lia.
    assert ((idx <? length buf) = true) as -> by (apply Nat.ltb_lt; lia).
    rewrite length_insert.
    split; [done|]. split; [lia|].
    assert ((idx + 1) mod n < n) as Hmod by (apply Nat.mod_upper_bound; lia).
    split; [by destruct (decide (length buf < n))|].
    destruct (lookup_lt_is_Some_2 buf idx) as [x Hx]; [lia|].
    rewrite insert_take_drop by lia.
    rewrite (drop_S _ _ _ Hx) in Hrot.
    destruct q as [|y q]; [done|].
    assert (drop (S idx) buf ++ take idx buf = Some <$> q) as Hrot'
      by (by injection Hrot).
    simpl. rewrite drop_0, fmap_app, <- Hrot'. simpl.
    destruct (decide (idx + 1 < n)) as [Hlt|Hge].
    + rewrite Nat.mod_small by lia.
      assert (take idx buf ++ Some v :: drop (S idx) buf
              = (take idx buf ++ [Some v]) ++ drop (S idx) buf) as ->
        by (by rewrite <- app_assoc).
      replace (idx + 1) with (length (take idx buf ++ [Some v]))
        by (rewrite length_app, length_take; simpl; lia).
      rewrite drop_app_length, take_app_length.
      by rewrite <- app_assoc.
    + assert (idx + 1 = n) as Hend by lia.
      rewrite Hend, Nat.Div0.mod_same, drop_0, take_0, app_nil_r.
      by rewrite (drop_ge buf (S idx)) by lia.
Qed.

(** The value [append] returns is the evicted one: nothing while there
    is room, the oldest entry once the buffer is full. *)
Lemma append_popped b q v :
  represents b q →
  (append b v).1 = if decide (length q < _bufferSize b) then None else head q.
Proof.
  intros Hrep. pose proof (represents_length _ _ Hrep) as Hlen.
  destruct Hrep as (Hn & Hle & Hidx & Hrot).
  unfold append; simpl. rewrite Hlen.
  case_decide as Hfull.
  - by assert ((length (_buffer b) =? _bufferSize b) = false) as ->
      by (apply Nat.eqb_neq; lia).
  - assert ((length (_buffer b) =? _bufferSize b) = true) as ->
      by (apply Nat.eqb_eq; lia).
    destruct (lookup_lt_is_Some_2 (_buffer b) (_index b)) as [x Hx]; [lia|].
    rewrite (drop_S _ _ _ Hx) in Hrot.
    unfold Js.array_get. rewrite Hx.
    destruct q as [|y q]; [done|]. by injection Hrot as -> _.
Qed.

Lemma bufferSize_appendAll b vs : _bufferSize (appendAll b vs) = _bufferSize b.
Proof.
  revert b. induction vs as [|v vs IH]; intros b; [done|].
  unfold appendAll in *. simpl. by rewrite IH.
Qed.

Lemma represents_appendAll b q vs :
  represents b q →
  represents (appendAll b vs) (foldl (enqueue (_bufferSize b)) q vs).
Proof.
  revert b q. induction vs as [|v vs IH]; intros b q Hrep; [done|].
  unfold appendAll in *. simpl.
  apply (IH (append b v).2). by apply represents_append.
Qed.

Lemma length_enqueue n q v :
  0 < n → length q ≤ n → length (enqueue n q v) ≤ n.
Proof.
  intros Hn Hq. unfold enqueue. case_decide.
  - rewrite length_app. simpl. lia.
  - rewrite length_app, length_drop. simpl. lia.
Qed.

(** Pushing [vs] through a queue bounded by [n] keeps the last [n]
    entries of everything pushed so far, in arrival order. *)
Lemma enqueue_all n q vs :
  0 < n → length q ≤ n →
  foldl (enqueue n) q vs = drop (length q + length vs - n) (q ++ vs).
Proof.
  intros Hn. revert q. induction vs as [|v vs IH]; intros q Hq.
  - simpl. rewrite app_nil_r. by replace (length q + 0 - n) with 0 by lia.
  - simpl. rewrite IH by by apply length_enqueue.
    unfold enqueue. case_decide as Hroom.
    + rewrite length_app, <- app_assoc. simpl. f_equal. lia.
    + destruct q as [|x q]; simpl in *; [lia|].
      rewrite drop_0, length_app, <- app_assoc. simpl.
      replace (S (length q + S (length vs)) - n) with (S (length vs)) by lia.
      by replace (length q + 1 + length vs - n) with (length vs) by lia.
Qed.

(** FIFO law of the ring buffer: after any number of appends to a new
    buffer, [items] yields the last [n] appended values, oldest first. *)
Lemma items_appendAll_new n (vs : list T) :
  0 < n →
  items (appendAll (new n) vs) = Some <$> drop (length vs - n) vs.
Proof.
  intros Hn.
  rewrite (represents_items _ (foldl (enqueue n) [] vs)).
  - rewrite enqueue_all by (simpl; lia). done.
  - apply (represents_appendAll (new n) []). by apply represents_new.
Qed.


Lemma represents_appendAll_new n (vs : list T) :
  0 < n → represents (appendAll (new n) vs) (drop (length vs - n) vs).
Proof.
  intros Hn.
  pose proof (represents_appendAll (new n) [] vs (represents_new n Hn)) as Hrep.
  simpl in Hrep. by rewrite enqueue_all in Hrep by (simpl; lia).
Qed.

(** [append] returns what it overwrites: [undefined] for each of the
    first [n] appends to a new buffer of size [n], and from then on the
    value appended [n] calls earlier. *)
Lemma append_returns_evicted n (vs : list T) v :
  0 < n →
  (append (appendAll (new n) vs) v).1
  = if decide (length vs < n) then None else vs !! (length vs - n).
Proof.
  intros Hn.
  rewrite (append_popped _ _ v (represents_appendAll_new n vs Hn)).
  rewrite bufferSize_appendAll, length_drop. simpl.
  destruct (decide (length vs < n)) as [Hroom|Hfull].
  - by rewrite decide_True by lia.
  - rewrite decide_False by lia.
    rewrite head_lookup, lookup_drop. f_equal. lia.
Qed.

(** [count] is the number of appends until the buffer is full, and the
    size from then on. *)
Lemma count_appendAll_new n (vs : list T) :
  0 < n → count (appendAll (new n) vs) = length vs `min` n.
Proof.
  intros Hn. unfold count.
  rewrite <- (represents_length _ _ (represents_appendAll_new n vs Hn)), length_drop.
  lia.
Qed.

End facts.

End CircularBuffer.

Example toUpperCase_btcusdt : Js.toUpperCase (Js.splitHead "@" "btcusdt@depth") = "BTCUSDT".
Proof. reflexivity. Qed.

(** Sums of doubles: exact up to 2^53; past it 2^53 + 1 is no double and
    goes to 2^53, 2^53 + 3 goes to 2^53 + 4, and from 2^54 on adding one
    changes nothing. *)
Example add_rounds :
  Js.add 100 1 = 101%Z
  ∧ Js.add 9007199254740991 1 = 9007199254740992%Z
  ∧ Js.add 9007199254740992 1 = 9007199254740992%Z
  ∧ Js.add 9007199254740994 1 = 9007199254740996%Z
  ∧ Js.add 18014398509481984 1 = 18014398509481984%Z
  ∧ Js.add (-9007199254740994) 1 = (-9007199254740992)%Z.
Proof. repeat split. Qed.

Example items_wraps :
  CircularBuffer.items (CircularBuffer.appendAll (CircularBuffer.new 3) [1; 2; 3; 4; 5]%Z)
  = [Some 3; Some 4; Some 5]%Z.
Proof. reflexivity. Qed.

(** A buffer of size 3 after five appends: [items] keeps the last three,
    the sixth append pushes out the third value, and [count] is 3. *)
Lemma items_appendAll_new_witness :
  CircularBuffer.items (CircularBuffer.appendAll (CircularBuffer.new 3) [1; 2; 3; 4; 5]%Z)
  = [Some 3; Some 4; Some 5]%Z.
Proof. apply (CircularBuffer.items_appendAll_new 3 [1; 2; 3; 4; 5]%Z). lia. Defined.

Lemma append_returns_evicted_witness :
  (CircularBuffer.append
     (CircularBuffer.appendAll (CircularBuffer.new 3) [1; 2; 3; 4; 5]%Z) 6%Z).1
  = Some 3%Z.
Proof. apply (CircularBuffer.append_returns_evicted 3 [1; 2; 3; 4; 5]%Z 6%Z). lia. Defined.

Lemma count_appendAll_new_witness :
  CircularBuffer.count (CircularBuffer.appendAll (CircularBuffer.new 3) [1; 2; 3; 4; 5]%Z) = 3.
Proof. apply (CircularBuffer.count_appendAll_new 3 [1; 2; 3; 4; 5]%Z). lia. Defined.

(** ** The Binance mappers *)

Module Binance.

(** *** Wire types *)

(** [BinanceResponse<T>].  The type says [stream: string]; the mappers
    test it against [undefined], so the field is optional here. *)
Record BinanceResponse (T : Type) : Type := Response {
  stream : option string;
  data : T
}.
Arguments Response {T}.
Arguments stream {T}.
Arguments data {T}.

(** [BinanceBookLevel = [string, string]] *)
Definition BinanceBookLevel : Type := string * string.

(** [BinanceDepthData], and [BinanceFuturesDepthData] when [pu] is there. *)
Module Depth.
Record t : Type := mk {
  E : Z;
  s : string;
  U : Z;
  u : Z;
  b : list BinanceBookLevel;
  a : list BinanceBookLevel;
  pu : option Z
}.
End Depth.

(** [BinanceDepthSnapshotData] *)
Module Snapshot.
Record t : Type := mk {
  lastUpdateId : Z;
  bids : list BinanceBookLevel;
  asks : list BinanceBookLevel
}.
End Snapshot.

(** [BinanceDepthData | BinanceDepthSnapshotData]: the two are told apart
    by [data.lastUpdateId !== undefined]. *)
Inductive DepthMessage : Type :=
| IsSnapshot (snapshot : Snapshot.t)
| IsUpdate (update : Depth.t).

(** [LocalDepthInfo] *)
Record LocalDepthInfo : Type := DepthInfo {
  bufferedUpdates : CircularBuffer.t Depth.t;
  snapshotProcessed : option bool;
  lastUpdateId : option Z;
  validatedFirstUpdate : option bool
}.

(** The text of the overlap error, by the three values the template
    interpolates: [JSON.stringify(update)], [lastUpdateId] and
    [this.exchange]. *)
Record OverlapMessage : Type := NoOverlap {
  msgUpdate : Depth.t;
  msgLastUpdateId : option Z;
  msgExchange : string
}.

Inductive Thrown : Type :=
| TypeError                       (* a property read on [undefined] *)
| Error (message : OverlapMessage).

(** *** JavaScript truthiness and comparisons with [undefined] *)

Definition truthy (flag : option bool) : bool :=
  match flag with
  | Some true => true
  | _ => false
  end.
Arguments truthy : simpl never.

(** [x <= y], [x < y] and [x >= y], where [y] may be [undefined] or NaN:
    all are then false. *)
Definition le_js (x : Z) (y : option Z) : bool :=
  match y with
  | Some y => (x <=? y)%Z
  | None => false
  end.

Definition lt_js (x : Z) (y : option Z) : bool :=
  match y with
  | Some y => (x <? y)%Z
  | None => false
  end.

Definition ge_js (x : Z) (y : option Z) : bool :=
  match y with
  | Some y => (y <=? x)%Z
  | None => false
  end.

(** [y + 1]: NaN when [y] is [undefined]. *)
Definition succ_js (y : option Z) : option Z := (λ v, Js.add v 1) <$> y.

(** On a safe integer [+ 1] is exact. *)
Lemma add_one_safe (v : Z) : Js.isSafeInteger v = true → Js.add v 1 = (v + 1)%Z.
Proof.
  unfold Js.isSafeInteger, Js.MAX_SAFE_INTEGER, Js.add, Js.toDouble. intros Hsafe.
  apply Z.leb_le in Hsafe.
  assert ((Z.abs (v + 1) <=? 9007199254740992)%Z = true) as -> by lia. done.
Qed.

(** [y == k] for a number [k]: false when [y] is [undefined]. *)
Definition eq_js (y : option Z) (k : Z) : bool :=
  match y with
  | Some y => (y =? k)%Z
  | None => false
  end.

(** *** Methods

    A method of a mapper object is a function of the state it may touch:
    it completes with a value or with a throw, and leaves a state behind
    either way. *)
Definition Method (S A : Type) : Type := S → (Thrown + A) * S.

#[global] Instance Method_ret {S} : MRet (Method S) := λ A x st, (inr x, st).
#[global] Instance Method_bind {S} : MBind (Method S) := λ A B f m st,
  match m st with
  | (inr x, st') => f x st'
  | (inl e, st') => (inl e, st')
  end.

Definition throw {S A} (e : Thrown) : Method S A := λ st, (inl e, st).

Section mappers.
(** The values of [Number(...)] stay abstract: prices and amounts are
    carried through, never compared. *)
Context {num : Type} (Number : string → num).

(** *** Normalized events *)

Record BookPriceLevel : Type := Level {
  price : num;
  amount : num
}.

Record BookChange : Type := mkBookChange {
  type : string;
  symbol : string;
  exchange : string;
  isSnapshot : bool;
  bids : list BookPriceLevel;
  asks : list BookPriceLevel;
  timestamp : Z;
  localTimestamp : Z
}.

(** *** Effects of a [map] call

    The state a call can touch: the mapper's [symbolToDepthInfoMapping],
    the events yielded so far and the lines passed to [debug].  A throw
    keeps the state reached so far. *)
Record State : Type := mkState {
  symbolToDepthInfoMapping : gmap string LocalDepthInfo;
  yielded : list BookChange;
  debugged : list OverlapMessage
}.

Definition yield (ev : BookChange) : Method State unit := λ st,
  (inr (), mkState (symbolToDepthInfoMapping st) (yielded st ++ [ev]) (debugged st)).

Definition debug (message : OverlapMessage) : Method State unit := λ st,
  (inr (), mkState (symbolToDepthInfoMapping st) (yielded st) (debugged st ++ [message])).

(** [this.symbolToDepthInfoMapping[key]], for a key that is stored or is
    no property name inherited from [Object.prototype].  ([map] looks up
    upper-cased symbols, which no inherited name is.) *)
Definition readInfo (key : string) : Method State (option LocalDepthInfo) := λ st,
  (inr (symbolToDepthInfoMapping st !! key), st).

(** [this.symbolToDepthInfoMapping[key] = info] *)
Definition writeInfo (key : string) (info : LocalDepthInfo) : Method State unit := λ st,
  (inr (), mkState (<[key := info]> (symbolToDepthInfoMapping st)) (yielded st) (debugged st)).

(** A field assignment through a reference to the object stored under
    [key]: every holder of that reference sees it. *)
Definition updateInfo (key : string) (f : LocalDepthInfo → LocalDepthInfo) : Method State unit := λ st,
  (inr (), mkState (alter f key (symbolToDepthInfoMapping st)) (yielded st) (debugged st)).

Fixpoint forEach {A} (xs : list A) (body : A → Method State unit) : Method State unit :=
  match xs with
  | [] => mret ()
  | x :: rest => body x ;; forEach rest body
  end.

Definition setValidatedFirstUpdate (info : LocalDepthInfo) : LocalDepthInfo :=
  DepthInfo (bufferedUpdates info) (snapshotProcessed info) (lastUpdateId info) (Some true).

Definition setSnapshotProcessed (id : Z) (info : LocalDepthInfo) : LocalDepthInfo :=
  DepthInfo (bufferedUpdates info) (Some true) (Some id) (validatedFirstUpdate info).

Definition appendUpdate (d : Depth.t) (info : LocalDepthInfo) : LocalDepthInfo :=
  DepthInfo (CircularBuffer.append (bufferedUpdates info) d).2
            (snapshotProcessed info) (lastUpdateId info) (validatedFirstUpdate info).

Definition clearUpdates (info : LocalDepthInfo) : LocalDepthInfo :=
  DepthInfo (CircularBuffer.clear (bufferedUpdates info))
            (snapshotProcessed info) (lastUpdateId info) (validatedFirstUpdate info).

(** *** BinanceBookChangeMapper *)

(** [mapBookLevel] *)
Definition mapBookLevel (level : BinanceBookLevel) : BookPriceLevel :=
  Level (Number level.1) (Number level.2).

(** The constructor's two read-only fields. *)
Record BookChangeMapper : Type := mkMapper {
  this_exchange : string;
  ignoreBookSnapshotOverlapError : bool
}.

(** The event [mapBookDepthUpdate] returns for an update it accepts. *)
Definition updateBookChange (this : BookChangeMapper) (d : Depth.t)
    (isSnap : bool) (localTs : Z) : BookChange :=
  mkBookChange "book_change" (Depth.s d) (this_exchange this) isSnap
    (mapBookLevel <$> Depth.b d) (mapBookLevel <$> Depth.a d)
    (Depth.E d) localTs.

(** [BinanceBookChangeMapper.mapBookDepthUpdate] *)
Definition mapBookDepthUpdate (this : BookChangeMapper) (d : Depth.t) (localTs : Z)
    : Method State (option BookChange) :=
  found ← readInfo (Depth.s d);
  match found with
  | None => throw TypeError
  | Some depthContext =>
    let lastId := lastUpdateId depthContext in
    if le_js (Depth.u d) lastId then mret None
    else
      (if negb (truthy (validatedFirstUpdate depthContext)) then
         let bookSnapshotIsEmpty := eq_js lastId (-1) in
         if (le_js (Depth.U d) (succ_js lastId) && ge_js (Depth.u d) (succ_js lastId))
            || bookSnapshotIsEmpty
         then updateInfo (Depth.s d) setValidatedFirstUpdate
         else
           let message := NoOverlap d lastId (this_exchange this) in
           if ignoreBookSnapshotOverlapError this
           then updateInfo (Depth.s d) setValidatedFirstUpdate ;; debug message
           else throw (Error message)
       else mret ()) ;;
      mret (Some (updateBookChange this d false localTs))
  end.

(** [BinanceFuturesBookChangeMapper.mapBookDepthUpdate], the override. *)
Definition futuresMapBookDepthUpdate (this : BookChangeMapper) (d : Depth.t) (localTs : Z)
    : Method State (option BookChange) :=
  found ← readInfo (Depth.s d);
  match found with
  | None => throw TypeError
  | Some depthContext =>
    let lastId := lastUpdateId depthContext in
    let isSnap := bool_decide (Depth.pu d = Some (-1)%Z) in
    if lt_js (Depth.u d) lastId then mret None
    else
      (if negb (truthy (validatedFirstUpdate depthContext)) then
         if (le_js (Depth.U d) lastId && ge_js (Depth.u d) lastId) || isSnap
         then updateInfo (Depth.s d) setValidatedFirstUpdate
         else
           let message := NoOverlap d lastId (this_exchange this) in
           if ignoreBookSnapshotOverlapError this
           then updateInfo (Depth.s d) setValidatedFirstUpdate ;; debug message
           else throw (Error message)
       else mret ()) ;;
      mret (Some (updateBookChange this d isSnap localTs))
  end.

(** Which class the mapper object is: it decides the method that
    [this.mapBookDepthUpdate] calls. *)
Inductive MapperClass : Type :=
| BinanceBookChangeMapper
| BinanceFuturesBookChangeMapper.

Definition dispatchMapBookDepthUpdate (cls : MapperClass) :=
  match cls with
  | BinanceBookChangeMapper => mapBookDepthUpdate
  | BinanceFuturesBookChangeMapper => futuresMapBookDepthUpdate
  end.

(** The event a snapshot message yields. *)
Definition snapshotBookChange (this : BookChangeMapper) (sym : string)
    (snap : Snapshot.t) (localTs : Z) : BookChange :=
  mkBookChange "book_change" sym (this_exchange this) true
    (mapBookLevel <$> Snapshot.bids snap) (mapBookLevel <$> Snapshot.asks snap)
    localTs localTs.

(** [message.stream.split('@')[0].toUpperCase()] *)
Definition symbolOf (streamName : string) : string :=
  Js.toUpperCase (Js.splitHead "@" streamName).

(** One buffered entry handed to [mapBookDepthUpdate] during the replay;
    a hole would be [undefined], whose [.s] cannot be read. *)
Definition replayOne (cls : MapperClass) (this : BookChangeMapper) (localTs : Z)
    (entry : option Depth.t) : Method State unit :=
  match entry with
  | None => throw TypeError
  | Some d =>
    bookChange ← dispatchMapBookDepthUpdate cls this d localTs;
    match bookChange with
    | Some ev => yield ev
    | None => mret ()
    end
  end.

(** [BinanceBookChangeMapper.map], inherited by the futures mapper. *)
Definition map (cls : MapperClass) (this : BookChangeMapper)
    (message : BinanceResponse DepthMessage) (localTs : Z) : Method State unit :=
  match stream message with
  | None => throw TypeError
  | Some streamName =>
    let sym := symbolOf streamName in
    existing ← readInfo sym;
    (if existing is None
     then writeInfo sym (DepthInfo (CircularBuffer.new 200) None None None)
     else mret ()) ;;
    current ← readInfo sym;
    match current with
    | None => throw TypeError
    | Some symbolDepthInfo =>
      let snapshotAlreadyProcessed := truthy (snapshotProcessed symbolDepthInfo) in
      match data message with
      | IsSnapshot snap =>
        if snapshotAlreadyProcessed then mret ()
        else
          yield (snapshotBookChange this sym snap localTs) ;;
          updateInfo sym (setSnapshotProcessed (Snapshot.lastUpdateId snap)) ;;
          forEach (CircularBuffer.items (bufferedUpdates symbolDepthInfo))
                  (replayOne cls this localTs) ;;
          updateInfo sym clearUpdates
      | IsUpdate d =>
        if snapshotAlreadyProcessed then
          bookChange ← dispatchMapBookDepthUpdate cls this d localTs;
          match bookChange with
          | Some ev => yield ev
          | None => mret ()
          end
        else updateInfo sym (appendUpdate d)
      end
    end
  end.

(** What a caller that drains the generator observes. *)
Record Outcome : Type := mkOutcome {
  events : list BookChange;
  mappingAfter : gmap string LocalDepthInfo;
  debugLines : list OverlapMessage;
  thrown : option Thrown
}.

Definition runMap (cls : MapperClass) (this : BookChangeMapper)
    (mapping : gmap string LocalDepthInfo)
    (message : BinanceResponse DepthMessage) (localTs : Z) : Outcome :=
  let '(completion, st) := map cls this message localTs (mkState mapping [] []) in
  mkOutcome (yielded st) (symbolToDepthInfoMapping st) (debugged st)
            (match completion with inl e => Some e | inr _ => None end).



(** Messages handed to [map] one after the other, each generator drained
    before the next call; the first throw ends the run. *)
Fixpoint feed (cls : MapperClass) (this : BookChangeMapper)
    (mapping : gmap string LocalDepthInfo)
    (messages : list (BinanceResponse DepthMessage * Z)) : Outcome :=
  match messages with
  | [] => mkOutcome [] mapping [] None
  | (message, localTs) :: rest =>
    let first := runMap cls this mapping message localTs in
    match thrown first with
    | Some _ => first
    | None =>
      let others := feed cls this (mappingAfter first) rest in
      mkOutcome (events first ++ events others) (mappingAfter others)
                (debugLines first ++ debugLines others) (thrown others)
    end
  end.

(** An update message as the connection delivers it. *)
Definition updateMessage (arrival : string * Depth.t * Z)
    : BinanceResponse DepthMessage * Z :=
  (Response (Some arrival.1.1) (IsUpdate arrival.1.2), arrival.2).

(** What [bufferedUpdates.items()] of a symbol would yield. *)
Definition pendingUpdates (mapping : gmap string LocalDepthInfo) (sym : string)
    : list (option Depth.t) :=
  match mapping !! sym with
  | Some info => CircularBuffer.items (bufferedUpdates info)
  | None => []
  end.

(** [sym] has seen no snapshot yet and the updates [q] are buffered for
    it, oldest first; a symbol the mapper has not met has none. *)
Definition awaitingSnapshot (mapping : gmap string LocalDepthInfo) (sym : string)
    (q : list Depth.t) : Prop :=
  match mapping !! sym with
  | Some info =>
    truthy (snapshotProcessed info) = false ∧
    CircularBuffer._bufferSize (bufferedUpdates info) = 200 ∧
    CircularBuffer.represents (bufferedUpdates info) q
  | None => q = []
  end.

(** *** Stepping through a call *)

Ltac step :=
  unfold runMap, map, replayOne, dispatchMapBookDepthUpdate, mapBookDepthUpdate,
    readInfo, writeInfo, updateInfo, yield, debug, throw,
    mbind, mret, Method_bind, Method_ret; simpl.

(** An update for a symbol whose snapshot was processed goes down the
    path the replay of a buffered update takes. *)
Lemma live_update_is_replayOne cls this streamName d localTs info st :
  symbolToDepthInfoMapping st !! symbolOf streamName = Some info →
  truthy (snapshotProcessed info) = true →
  map cls this (Response (Some streamName) (IsUpdate d)) localTs st
  = replayOne cls this localTs (Some d) st.
Proof.
  intros Hinfo Hsnap. destruct st as [mapping out dbg]. simpl in Hinfo.
  unfold map, replayOne, readInfo, mbind, mret, Method_bind, Method_ret; simpl.
  repeat (rewrite Hinfo; simpl). by rewrite Hsnap.
Qed.

(** [mapBookDepthUpdate], in either class, assigns to
    [validatedFirstUpdate] only: every buffer stays as it is.  The replay
    loop of [map] may therefore read [items()] once, before the loop. *)
Lemma mapBookDepthUpdate_keeps_buffers cls this d localTs st key :
  bufferedUpdates <$> symbolToDepthInfoMapping (dispatchMapBookDepthUpdate cls this d localTs st).2 !! key
  = bufferedUpdates <$> symbolToDepthInfoMapping st !! key.
Proof.
  assert (bufferedUpdates <$> alter setValidatedFirstUpdate (Depth.s d)
                                    (symbolToDepthInfoMapping st) !! key
          = bufferedUpdates <$> symbolToDepthInfoMapping st !! key) as Halter.
  { destruct (decide (Depth.s d = key)) as [<-|Hne].
    - rewrite lookup_alter_eq. by destruct (symbolToDepthInfoMapping st !! Depth.s d).
    - by rewrite lookup_alter_ne. }
  destruct cls; unfold dispatchMapBookDepthUpdate, mapBookDepthUpdate,
    futuresMapBookDepthUpdate, readInfo, updateInfo, debug, throw,
    mbind, mret, Method_bind, Method_ret; simpl;
    destruct (symbolToDepthInfoMapping st !! Depth.s d) as [depthContext|]; simpl; try done.
  - destruct (le_js _ _); simpl; [done|].
    destruct (negb _); simpl; [|done].
    destruct (_ || _); simpl; [done|].
    by destruct (ignoreBookSnapshotOverlapError this).
  - destruct (lt_js _ _); simpl; [done|].
    destruct (negb _); simpl; [|done].
    destruct (_ || _); simpl; [done|].
    by destruct (ignoreBookSnapshotOverlapError this).
Qed.

(** C5: a snapshot message for a symbol whose snapshot was already
    processed yields no event and leaves the whole mapper state,
    [lastUpdateId] included, as it was. *)
Theorem second_snapshot_ignored cls this mapping streamName snap localTs info :
  mapping !! symbolOf streamName = Some info →
  truthy (snapshotProcessed info) = true →
  runMap cls this mapping (Response (Some streamName) (IsSnapshot snap)) localTs
  = mkOutcome [] mapping [] None.
Proof.
  intros Hinfo Hsnap. step. repeat (rewrite Hinfo; simpl). by rewrite Hsnap.
Qed.

(** C4: once the snapshot of a symbol was processed, an update for that
    symbol whose end id [u] is not above the symbol's [lastUpdateId]
    yields no event and leaves the mapper state as it was. *)
Theorem stale_update_discarded this mapping streamName d localTs info lastId :
  mapping !! symbolOf streamName = Some info →
  truthy (snapshotProcessed info) = true →
  Depth.s d = symbolOf streamName →
  lastUpdateId info = Some lastId →
  (Depth.u d ≤ lastId)%Z →
  runMap BinanceBookChangeMapper this mapping
         (Response (Some streamName) (IsUpdate d)) localTs
  = mkOutcome [] mapping [] None.
Proof.
  intros Hinfo Hsnap Hsym Hlast Hstale. step.
  repeat (rewrite Hinfo; simpl). rewrite Hsnap; simpl.
  rewrite Hsym. repeat (rewrite Hinfo; simpl). rewrite Hlast; simpl.
  by assert ((Depth.u d <=? lastId)%Z = true) as -> by lia.
Qed.


(** The overlap test of the first processed update against the
    snapshot's [lastUpdateId], as [mapBookDepthUpdate] computes it. *)
Definition overlapTest (d : Depth.t) (lastId : option Z) : bool :=
  (le_js (Depth.U d) (succ_js lastId) && ge_js (Depth.u d) (succ_js lastId))
  || eq_js lastId (-1).

Lemma overlapTest_spec d l :
  Js.isSafeInteger l = true →
  overlapTest d (Some l) = true ↔
  ((Depth.U d ≤ l + 1 ∧ l + 1 ≤ Depth.u d) ∨ l = -1)%Z.
Proof.
  intros Hsafe. unfold overlapTest; simpl. rewrite (add_one_safe l Hsafe).
  rewrite orb_true_iff, andb_true_iff, !Z.leb_le, Z.eqb_eq. lia.
Qed.

(** C1 (amended): with a [lastUpdateId] that is a safe integer, so that
    [lastUpdateId + 1] is computed exactly, the first update above
    [lastUpdateId] that is processed after the snapshot passes when
    [U <= lastUpdateId + 1 <= u] or when the snapshot was empty
    ([lastUpdateId = -1]); it is then emitted with [isSnapshot = false] and
    the symbol is marked validated.  When it fails, a strict mapper throws
    an error that carries the update (its [U] and [u]), [lastUpdateId] and
    the exchange and changes nothing; a tolerant mapper passes the same
    message to [debug], marks the symbol validated and emits the update all
    the same. *)
Theorem first_update_overlap_check this mapping streamName d localTs info lastId :
  mapping !! symbolOf streamName = Some info →
  truthy (snapshotProcessed info) = true →
  Depth.s d = symbolOf streamName →
  lastUpdateId info = Some lastId →
  Js.isSafeInteger lastId = true →
  truthy (validatedFirstUpdate info) = false →
  (lastId < Depth.u d)%Z →
  let passes := ((Depth.U d ≤ lastId + 1 ∧ lastId + 1 ≤ Depth.u d) ∨ lastId = -1)%Z in
  let outcome := runMap BinanceBookChangeMapper this mapping
                        (Response (Some streamName) (IsUpdate d)) localTs in
  let validated := <[symbolOf streamName := setValidatedFirstUpdate info]> mapping in
  let event := updateBookChange this d false localTs in
  let message := NoOverlap d (Some lastId) (this_exchange this) in
  isSnapshot event = false ∧
  (passes → outcome = mkOutcome [event] validated [] None) ∧
  (¬ passes → ignoreBookSnapshotOverlapError this = false →
     outcome = mkOutcome [] mapping [] (Some (Error message))) ∧
  (¬ passes → ignoreBookSnapshotOverlapError this = true →
     outcome = mkOutcome [event] validated [message] None).
Proof.
  intros Hinfo Hsnap Hsym Hlast Hsafe Hfirst Hfresh passes outcome validated event message.
  assert (alter setValidatedFirstUpdate (symbolOf streamName) mapping = validated) as Halter.
  { apply map_eq. intros k. unfold validated.
    destruct (decide (symbolOf streamName = k)) as [<-|Hne].
    - by rewrite lookup_alter_eq, lookup_insert_eq, Hinfo.
    - by rewrite lookup_alter_ne, lookup_insert_ne. }
  assert (outcome =
    if overlapTest d (Some lastId) then mkOutcome [event] validated [] None
    else if ignoreBookSnapshotOverlapError this
         then mkOutcome [event] validated [message] None
         else mkOutcome [] mapping [] (Some (Error message))) as ->.
  { unfold outcome. step.
    repeat (rewrite Hinfo; simpl). rewrite Hsnap; simpl.
    rewrite Hsym. repeat (rewrite Hinfo; simpl). rewrite Hlast; simpl.
    assert ((Depth.u d <=? lastId)%Z = false) as -> by lia.
    rewrite Hfirst; simpl.
    unfold overlapTest; simpl.
    destruct (_ || _); simpl; [by rewrite Halter|].
    destruct (ignoreBookSnapshotOverlapError this); simpl; [by rewrite Halter|done]. }
  pose proof (overlapTest_spec d lastId Hsafe) as Hspec. fold passes in Hspec.
  split; [done|].
  destruct (overlapTest d (Some lastId)).
  - split; [done|].
    split; intros Hno; exfalso; apply Hno, Hspec; done.
  - assert (¬ passes) as Hno by (intros Hp; apply Hspec in Hp; done).
    split; [done|].
    split; intros _ ->; done.
Qed.


Lemma awaitingSnapshot_pending mapping sym q :
  awaitingSnapshot mapping sym q → pendingUpdates mapping sym = Some <$> q.
Proof.
  unfold awaitingSnapshot, pendingUpdates.
  destruct (mapping !! sym) as [info|].
  - intros (_ & _ & Hrep). by apply CircularBuffer.represents_items.
  - by intros ->.
Qed.

Lemma awaitingSnapshot_length mapping sym q :
  awaitingSnapshot mapping sym q → length q ≤ 200.
Proof.
  unfold awaitingSnapshot. destruct (mapping !! sym) as [info|].
  - intros (_ & Hsize & Hrep).
    rewrite (CircularBuffer.represents_length _ _ Hrep).
    destruct Hrep as (_ & Hle & _). lia.
  - intros ->. simpl. lia.
Qed.

(** One update before the snapshot: nothing is yielded, the update goes
    to the back of the symbol's buffer, no other symbol is touched. *)
Lemma update_before_snapshot cls this mapping streamName d localTs q :
  awaitingSnapshot mapping (symbolOf streamName) q →
  ∃ mapping',
    runMap cls this mapping (Response (Some streamName) (IsUpdate d)) localTs
      = mkOutcome [] mapping' [] None ∧
    awaitingSnapshot mapping' (symbolOf streamName) (CircularBuffer.enqueue 200 q d) ∧
    ∀ other, other ≠ symbolOf streamName → mapping' !! other = mapping !! other.
Proof.
  unfold awaitingSnapshot. intros Hwait. step.
  destruct (mapping !! symbolOf streamName) as [info|] eqn:Hinfo; simpl.
  - destruct Hwait as (Hsnap & Hsize & Hrep).
    rewrite Hinfo, Hsnap; simpl.
    eexists. split; [done|]. split.
    + rewrite lookup_alter_eq, Hinfo. simpl.
      split; [done|]. split; [done|].
      rewrite <- Hsize. by apply CircularBuffer.represents_append.
    + intros other Hne. by rewrite lookup_alter_ne.
  - subst q. rewrite lookup_insert_eq. simpl.
    eexists. split; [done|]. split.
    + rewrite lookup_alter_eq, lookup_insert_eq. simpl.
      split; [done|]. split; [done|].
      apply (CircularBuffer.represents_append (CircularBuffer.new 200) []).
      apply CircularBuffer.represents_new. lia.
    + intros other Hne. by rewrite lookup_alter_ne, lookup_insert_ne.
Qed.

Lemma feed_cons cls this mapping message localTs rest :
  feed cls this mapping ((message, localTs) :: rest) =
  let first := runMap cls this mapping message localTs in
  match thrown first with
  | Some _ => first
  | None =>
    let others := feed cls this (mappingAfter first) rest in
    mkOutcome (events first ++ events others) (mappingAfter others)
              (debugLines first ++ debugLines others) (thrown others)
  end.
Proof. done. Qed.

Lemma updates_before_snapshot cls this mapping sym q arrivals :
  awaitingSnapshot mapping sym q →
  Forall (λ arrival, symbolOf arrival.1.1 = sym) arrivals →
  ∃ mapping',
    feed cls this mapping (updateMessage <$> arrivals) = mkOutcome [] mapping' [] None ∧
    awaitingSnapshot mapping' sym
      (foldl (CircularBuffer.enqueue 200) q ((λ arrival, arrival.1.2) <$> arrivals)) ∧
    ∀ other, other ≠ sym → mapping' !! other = mapping !! other.
Proof.
  intros Hwait Hall. revert mapping q Hwait.
  induction Hall as [|[[streamName d] localTs] arrivals Hsym _ IH]; intros mapping q Hwait.
  - simpl. eauto.
  - simpl in Hsym. subst sym.
    destruct (update_before_snapshot cls this mapping streamName d localTs q Hwait)
      as (mapping1 & Hrun & Hwait1 & Hother1).
    destruct (IH mapping1 _ Hwait1) as (mapping2 & Hfeed & Hwait2 & Hother2).
    exists mapping2. rewrite fmap_cons. unfold updateMessage at 1.
    rewrite feed_cons. cbn [fst snd]. rewrite Hrun. cbn [thrown mappingAfter].
    rewrite Hfeed. cbn [events debugLines mappingAfter thrown app].
    split; [done|]. split; [done|].
    intros other Hne. by rewrite Hother2, Hother1.
Qed.

(** C2: update messages that reach the mapper for a symbol before any
    snapshot of that symbol yield no event.  Each is appended to the
    symbol's ring buffer; the buffer then holds the last 200 of all the
    updates that arrived, in arrival order, so that past 200 exactly the
    oldest ones are gone.  The symbol still awaits its snapshot and no
    other symbol is touched. *)
Theorem updates_before_snapshot_are_buffered cls this mapping sym q arrivals :
  awaitingSnapshot mapping sym q →
  Forall (λ arrival, symbolOf arrival.1.1 = sym) arrivals →
  let outcome := feed cls this mapping (updateMessage <$> arrivals) in
  let arrived := q ++ ((λ arrival, arrival.1.2) <$> arrivals) in
  let kept := drop (length arrived - 200) arrived in
  events outcome = [] ∧
  thrown outcome = None ∧
  pendingUpdates (mappingAfter outcome) sym = Some <$> kept ∧
  awaitingSnapshot (mappingAfter outcome) sym kept ∧
  ∀ other, other ≠ sym → mappingAfter outcome !! other = mapping !! other.
Proof.
  intros Hwait Hall outcome arrived kept.
  destruct (updates_before_snapshot cls this mapping sym q arrivals Hwait Hall)
    as (mapping' & Hfeed & Hwait' & Hother).
  unfold outcome. rewrite Hfeed; simpl.
  rewrite CircularBuffer.enqueue_all in Hwait'
    by (try lia; by eapply awaitingSnapshot_length).
  rewrite <- length_app in Hwait'. fold arrived kept in Hwait'.
  split; [done|]. split; [done|].
  split; [by apply awaitingSnapshot_pending|]. done.
Qed.

(** *** Replay of the buffered updates *)

(** The state during the replay for [sym]: its snapshot with id [id] is
    recorded, its buffer [buf] is still in place, its validation flag is
    [v], and the other symbols are as in [mapping0]. *)
Definition replaying (mapping0 : gmap string LocalDepthInfo) (sym : string)
    (buf : CircularBuffer.t Depth.t) (id : Z) (v : option bool) (st : State) : Prop :=
  symbolToDepthInfoMapping st !! sym = Some (DepthInfo buf (Some true) (Some id) v) ∧
  ∀ other, other ≠ sym → symbolToDepthInfoMapping st !! other = mapping0 !! other.

(** The buffered updates that are not stale against the snapshot id. *)
Definition freshUpdates (id : Z) (q : list Depth.t) : list Depth.t :=
  filter (λ d, (id < Depth.u d)%Z) q.

Lemma replay_stale this localTs mapping0 sym buf id v st d :
  replaying mapping0 sym buf id v st →
  Depth.s d = sym →
  (Depth.u d ≤ id)%Z →
  replayOne BinanceBookChangeMapper this localTs (Some d) st = (inr (), st).
Proof.
  intros [Hinfo _] Hsym Hstale. destruct st as [mapping out dbg]. simpl in Hinfo.
  step. rewrite Hsym, Hinfo; simpl.
  by assert ((Depth.u d <=? id)%Z = true) as -> by lia.
Qed.

Lemma replay_fresh this localTs mapping0 sym buf id v st d :
  replaying mapping0 sym buf id v st →
  Depth.s d = sym →
  (id < Depth.u d)%Z →
  ignoreBookSnapshotOverlapError this = true ∨ truthy v = true
    ∨ overlapTest d (Some id) = true →
  ∃ st',
    replayOne BinanceBookChangeMapper this localTs (Some d) st = (inr (), st') ∧
    yielded st' = yielded st ++ [updateBookChange this d false localTs] ∧
    replaying mapping0 sym buf id (Some true) st'.
Proof.
  intros [Hinfo Hother] Hsym Hfresh Hok. destruct st as [mapping out dbg].
  simpl in Hinfo, Hother.
  assert (∀ st', symbolToDepthInfoMapping st' = alter setValidatedFirstUpdate sym mapping →
                 replaying mapping0 sym buf id (Some true) st') as Hvalidated.
  { intros st' Heq. unfold replaying. rewrite Heq. split.
    - by rewrite lookup_alter_eq, Hinfo.
    - intros other Hne. rewrite lookup_alter_ne by done. by apply Hother. }
  step. rewrite Hsym, Hinfo; simpl.
  assert ((Depth.u d <=? id)%Z = false) as -> by lia.
  destruct (truthy v) eqn:Hv; simpl.
  - eexists. split; [done|]. split; [done|]. split; simpl; [|done].
    rewrite Hinfo. destruct v as [[]|]; done.
  - change ((Depth.U d <=? Js.add id 1)%Z && (Js.add id 1 <=? Depth.u d)%Z || (id =? -1)%Z)
      with (overlapTest d (Some id)).
    destruct (overlapTest d (Some id)); simpl.
    + eexists. split; [done|]. split; [done|]. by apply Hvalidated.
    + destruct Hok as [->|[?|?]]; [|done..]. simpl.
      eexists. split; [done|]. split; [done|]. by apply Hvalidated.
Qed.

Lemma replay_rejected this localTs mapping0 sym buf id v st d :
  replaying mapping0 sym buf id v st →
  Depth.s d = sym →
  (id < Depth.u d)%Z →
  ignoreBookSnapshotOverlapError this = false →
  truthy v = false →
  overlapTest d (Some id) = false →
  replayOne BinanceBookChangeMapper this localTs (Some d) st
  = (inl (Error (NoOverlap d (Some id) (this_exchange this))), st).
Proof.
  intros [Hinfo _] Hsym Hfresh Hstrict Hv Hno. destruct st as [mapping out dbg].
  simpl in Hinfo.
  step. rewrite Hsym, Hinfo; simpl.
  assert ((Depth.u d <=? id)%Z = false) as -> by lia.
  rewrite Hv; simpl.
  change ((Depth.U d <=? Js.add id 1)%Z && (Js.add id 1 <=? Depth.u d)%Z || (id =? -1)%Z)
    with (overlapTest d (Some id)).
  rewrite Hno, Hstrict. done.
Qed.

Lemma forEach_cons {A} (x : A) rest body st :
  forEach (x :: rest) body st =
  match body x st with
  | (inr _, st') => forEach rest body st'
  | (inl e, st') => (inl e, st')
  end.
Proof. unfold forEach at 1, mbind, Method_bind. by destruct (body x st) as [[?|[]] ?]. Qed.

(** When no strict overlap failure stands in the way, the replay yields
    the fresh updates in buffer order and completes. *)
Lemma replay_completes this localTs mapping0 sym buf id q :
  Forall (λ d, Depth.s d = sym) q →
  ∀ v st,
  replaying mapping0 sym buf id v st →
  ignoreBookSnapshotOverlapError this = true ∨ truthy v = true
    ∨ (∀ d, head (freshUpdates id q) = Some d → overlapTest d (Some id) = true) →
  ∃ st',
    forEach (Some <$> q) (replayOne BinanceBookChangeMapper this localTs) st = (inr (), st') ∧
    yielded st' = yielded st
                  ++ ((λ d, updateBookChange this d false localTs) <$> freshUpdates id q) ∧
    replaying mapping0 sym buf id
      (if freshUpdates id q is [] then v else Some true) st'.
Proof.
  induction 1 as [|d q Hsym _ IH]; intros v st Hrep Hok.
  - exists st. simpl. by rewrite app_nil_r.
  - rewrite fmap_cons, forEach_cons. unfold freshUpdates in *.
    destruct (decide (id < Depth.u d)%Z) as [Hfresh|Hstale].
    + rewrite filter_cons_True in Hok |- * by done. simpl in Hok.
      destruct (replay_fresh this localTs mapping0 sym buf id v st d Hrep Hsym Hfresh)
        as (st1 & -> & Hout1 & Hrep1).
      { destruct Hok as [?|[?|Hhead]]; auto. }
      destruct (IH (Some true) st1 Hrep1) as (st2 & -> & Hout2 & Hrep2); [by auto|].
      exists st2. split; [done|]. split.
      * rewrite Hout2, Hout1, fmap_cons, <- app_assoc. done.
      * by destruct (filter _ q).
    + rewrite filter_cons_False in Hok |- * by done.
      rewrite (replay_stale this localTs mapping0 sym buf id v st d Hrep Hsym) by lia.
      by apply IH.
Qed.

(** A strict mapper whose first fresh buffered update fails the overlap
    test throws before it yields any update; the state stays as it was. *)
Lemma replay_aborts this localTs mapping0 sym buf id v q d0 :
  Forall (λ d, Depth.s d = sym) q →
  ignoreBookSnapshotOverlapError this = false →
  truthy v = false →
  head (freshUpdates id q) = Some d0 →
  overlapTest d0 (Some id) = false →
  ∀ st,
  replaying mapping0 sym buf id v st →
  forEach (Some <$> q) (replayOne BinanceBookChangeMapper this localTs) st
  = (inl (Error (NoOverlap d0 (Some id) (this_exchange this))), st).
Proof.
  intros Hall Hstrict Hv Hhead Hno st Hrep.
  induction Hall as [|d q Hsym _ IH]; [done|].
  rewrite fmap_cons, forEach_cons. unfold freshUpdates in *.
  destruct (decide (id < Depth.u d)%Z) as [Hfresh|Hstale].
  - rewrite filter_cons_True in Hhead by done. injection Hhead as ->.
    by rewrite (replay_rejected this localTs mapping0 sym buf id v st d0).
  - rewrite filter_cons_False in Hhead by done.
    rewrite (replay_stale this localTs mapping0 sym buf id v st d Hrep Hsym) by lia.
    by apply IH.
Qed.

Lemma length_freshUpdates id q : length (freshUpdates id q) ≤ length q.
Proof. apply length_filter. Qed.

(** C3 (amended): for a symbol that awaits its snapshot with the updates
    [q] buffered, each carrying the symbol in its [s] field, and a mapper
    that is tolerant or whose first fresh buffered update passes the overlap
    test: the first snapshot message yields one [isSnapshot = true] event
    with all the snapshot's levels, then one [isSnapshot = false] event for
    each buffered update whose [u] is above the snapshot id, in arrival
    order and hence at most [length q] of them; the call does not throw, the
    buffer is empty afterwards, [lastUpdateId] is the snapshot's id and no
    other symbol is touched. *)
Theorem first_snapshot_replays_buffer this mapping streamName snap localTs q :
  let sym := symbolOf streamName in
  let id := Snapshot.lastUpdateId snap in
  awaitingSnapshot mapping sym q →
  Forall (λ d, Depth.s d = sym) q →
  ignoreBookSnapshotOverlapError this = true
    ∨ (∀ d, head (freshUpdates id q) = Some d → overlapTest d (Some id) = true) →
  let outcome := runMap BinanceBookChangeMapper this mapping
                        (Response (Some streamName) (IsSnapshot snap)) localTs in
  events outcome
    = snapshotBookChange this sym snap localTs
      :: ((λ d, updateBookChange this d false localTs) <$> freshUpdates id q) ∧
  isSnapshot (snapshotBookChange this sym snap localTs) = true ∧
  bids (snapshotBookChange this sym snap localTs) = mapBookLevel <$> Snapshot.bids snap ∧
  asks (snapshotBookChange this sym snap localTs) = mapBookLevel <$> Snapshot.asks snap ∧
  Forall (λ ev, isSnapshot ev = false) (tail (events outcome)) ∧
  length (tail (events outcome)) ≤ length q ∧
  thrown outcome = None ∧
  pendingUpdates (mappingAfter outcome) sym = [] ∧
  (∃ info', mappingAfter outcome !! sym = Some info' ∧
            CircularBuffer.count (bufferedUpdates info') = 0 ∧
            lastUpdateId info' = Some id ∧
            snapshotProcessed info' = Some true) ∧
  ∀ other, other ≠ sym → mappingAfter outcome !! other = mapping !! other.
Proof.
  intros sym id Hwait Hall Hok outcome.
  assert (∃ evs info',
    outcome = mkOutcome
      (snapshotBookChange this sym snap localTs
       :: ((λ d, updateBookChange this d false localTs) <$> freshUpdates id q))
      (<[sym := info']> (mappingAfter outcome)) evs None ∧
    mappingAfter outcome !! sym = Some info' ∧
    CircularBuffer.items (bufferedUpdates info') = [] ∧
    CircularBuffer.count (bufferedUpdates info') = 0 ∧
    lastUpdateId info' = Some id ∧
    snapshotProcessed info' = Some true ∧
    ∀ other, other ≠ sym → mappingAfter outcome !! other = mapping !! other)
    as (evs & info' & Hout & Hlook & Hitems & Hcount & Hid & Hsnap & Hother).
  { unfold outcome, awaitingSnapshot in *. fold sym in Hwait |- *.
    destruct (mapping !! sym) as [info|] eqn:Hinfo.
    - destruct Hwait as (Hnot & Hsize & Hrep).
      destruct (replay_completes this localTs mapping sym (bufferedUpdates info) id q Hall
                  (validatedFirstUpdate info)
                  (mkState (alter (setSnapshotProcessed id) sym mapping)
                           [snapshotBookChange this sym snap localTs] []))
        as (st' & Hrun & Hyield & [Hinfo' Hother']).
      { split; simpl.
        - by rewrite lookup_alter_eq, Hinfo.
        - intros other Hne. by rewrite lookup_alter_ne. }
      { destruct Hok; auto. }
      unfold runMap, map, readInfo, writeInfo, updateInfo, yield,
        mbind, mret, Method_bind, Method_ret; simpl.
      fold sym. repeat (rewrite Hinfo; simpl). rewrite Hnot; simpl.
      rewrite (CircularBuffer.represents_items _ _ Hrep).
      fold id. rewrite Hrun. simpl.
      eexists _, _. split.
      + rewrite Hyield. simpl. f_equal.
        apply map_eq. intros k. destruct (decide (sym = k)) as [<-|Hne].
        * rewrite lookup_insert_eq, lookup_alter_eq, Hinfo'. done.
        * by rewrite lookup_insert_ne.
      + rewrite lookup_alter_eq, Hinfo'. simpl.
        repeat split; try done.
        intros other Hne. rewrite lookup_alter_ne by done. by apply Hother'.
    - subst q. step. fold sym. rewrite Hinfo; simpl.
      rewrite lookup_insert_eq; simpl.
      eexists _, _. split.
      + f_equal. apply map_eq. intros k. destruct (decide (sym = k)) as [<-|Hne].
        * by rewrite lookup_insert_eq, !lookup_alter_eq, lookup_insert_eq.
        * by rewrite lookup_insert_ne.
      + rewrite !lookup_alter_eq, lookup_insert_eq. simpl.
        repeat split; try done.
        intros other Hne. by rewrite !lookup_alter_ne, lookup_insert_ne. }
  rewrite Hout. simpl.
  split; [done|]. split; [done|]. split; [done|]. split; [done|].
  split; [by apply Forall_fmap, Forall_true|].
  split; [rewrite length_fmap; apply length_freshUpdates|].
  split; [done|].
  split; [unfold pendingUpdates; by rewrite lookup_insert_eq|].
  split.
  - exists info'. by rewrite lookup_insert_eq.
  - intros other Hne. rewrite lookup_insert_ne by done. by apply Hother.
Qed.

(** The other outcome of the first snapshot: a strict mapper whose first
    fresh buffered update fails the overlap test, as the code computes it
    in doubles, yields the snapshot event and throws; the snapshot is
    recorded, the buffer is left as it was. *)
Lemma first_snapshot_strict_abort this mapping streamName snap localTs info q d0 :
  let sym := symbolOf streamName in
  let id := Snapshot.lastUpdateId snap in
  mapping !! sym = Some info →
  truthy (snapshotProcessed info) = false →
  CircularBuffer.represents (bufferedUpdates info) q →
  Forall (λ d, Depth.s d = sym) q →
  ignoreBookSnapshotOverlapError this = false →
  truthy (validatedFirstUpdate info) = false →
  head (freshUpdates id q) = Some d0 →
  overlapTest d0 (Some id) = false →
  runMap BinanceBookChangeMapper this mapping
         (Response (Some streamName) (IsSnapshot snap)) localTs
  = mkOutcome [snapshotBookChange this sym snap localTs]
              (<[sym := setSnapshotProcessed id info]> mapping) []
              (Some (Error (NoOverlap d0 (Some id) (this_exchange this)))).
Proof.
  intros sym id Hinfo Hnot Hrep Hall Hstrict Hv Hhead Hno.
  assert (alter (setSnapshotProcessed id) sym mapping
          = <[sym := setSnapshotProcessed id info]> mapping) as Halter.
  { apply map_eq. intros k. destruct (decide (sym = k)) as [<-|Hne].
    - by rewrite lookup_alter_eq, lookup_insert_eq, Hinfo.
    - by rewrite lookup_alter_ne, lookup_insert_ne. }
  unfold runMap, map, readInfo, writeInfo, updateInfo, yield,
    mbind, mret, Method_bind, Method_ret; simpl.
  fold sym. repeat (rewrite Hinfo; simpl). rewrite Hnot; simpl.
  rewrite (CircularBuffer.represents_items _ _ Hrep). fold id.
  rewrite (replay_aborts this localTs mapping sym (bufferedUpdates info) id
             (validatedFirstUpdate info) q d0); try done.
  - simpl. by rewrite Halter.
  - split; simpl.
    + by rewrite lookup_alter_eq, Hinfo.
    + intros other Hne. by rewrite lookup_alter_ne.
Qed.

(** C6 (amended): in the streaming state of a symbol (snapshot processed,
    first update validated) an update for it is dropped, with no event,
    exactly when its [u] is at most the [lastUpdateId] of the snapshot;
    any other update is emitted.  Neither case changes the state, so the
    bound stays the snapshot's id whatever was accepted since, and only the
    entry of the update's own symbol is consulted. *)
Theorem streaming_bound_is_snapshot_id this mapping streamName d localTs info lastId :
  mapping !! symbolOf streamName = Some info →
  truthy (snapshotProcessed info) = true →
  truthy (validatedFirstUpdate info) = true →
  lastUpdateId info = Some lastId →
  Depth.s d = symbolOf streamName →
  runMap BinanceBookChangeMapper this mapping
         (Response (Some streamName) (IsUpdate d)) localTs
  = if decide (Depth.u d ≤ lastId)%Z
    then mkOutcome [] mapping [] None
    else mkOutcome [updateBookChange this d false localTs] mapping [] None.
Proof.
  intros Hinfo Hsnap Hvalid Hlast Hsym.
  step. repeat (rewrite Hinfo; simpl). rewrite Hsnap; simpl.
  rewrite Hsym. repeat (rewrite Hinfo; simpl). rewrite Hlast; simpl.
  case_decide as Hstale.
  - by assert ((Depth.u d <=? lastId)%Z = true) as -> by lia.
  - assert ((Depth.u d <=? lastId)%Z = false) as -> by lia.
    by rewrite Hvalid.
Qed.

(** *** Strict and tolerant mappers *)

(** The two mappers for one exchange. *)
Definition strictFor (exchangeName : string) : BookChangeMapper := mkMapper exchangeName false.
Definition tolerantFor (exchangeName : string) : BookChangeMapper := mkMapper exchangeName true.

Lemma dispatch_tolerant_agrees cls exchangeName d localTs st result st' :
  dispatchMapBookDepthUpdate cls (strictFor exchangeName) d localTs st = (inr result, st') →
  dispatchMapBookDepthUpdate cls (tolerantFor exchangeName) d localTs st = (inr result, st')
  ∧ debugged st' = debugged st.
Proof.
  destruct cls; unfold dispatchMapBookDepthUpdate, mapBookDepthUpdate,
    futuresMapBookDepthUpdate, readInfo, updateInfo, debug, throw,
    mbind, mret, Method_bind, Method_ret; simpl;
    destruct (symbolToDepthInfoMapping st !! Depth.s d) as [depthContext|]; simpl; try done.
  - destruct (le_js _ _); simpl; [by intros [= <- <-]|].
    destruct (negb _); simpl; [|by intros [= <- <-]].
    destruct (_ || _); simpl; [by intros [= <- <-]|done].
  - destruct (lt_js _ _); simpl; [by intros [= <- <-]|].
    destruct (negb _); simpl; [|by intros [= <- <-]].
    destruct (_ || _); simpl; [by intros [= <- <-]|done].
Qed.

Lemma replayOne_tolerant_agrees cls exchangeName localTs entry st result st' :
  replayOne cls (strictFor exchangeName) localTs entry st = (inr result, st') →
  replayOne cls (tolerantFor exchangeName) localTs entry st = (inr result, st')
  ∧ debugged st' = debugged st.
Proof.
  destruct entry as [d|]; [|done].
  unfold replayOne, mbind, Method_bind.
  destruct (dispatchMapBookDepthUpdate cls (strictFor exchangeName) d localTs st)
    as [[e|bookChange] st1] eqn:Hstrict; [done|].
  destruct (dispatch_tolerant_agrees _ _ _ _ _ _ _ Hstrict) as [-> Hlog].
  destruct bookChange as [ev|]; unfold yield, mret, Method_ret; simpl;
    by intros [= <- <-].
Qed.

Lemma forEach_tolerant_agrees cls exchangeName localTs entries st result st' :
  forEach entries (replayOne cls (strictFor exchangeName) localTs) st = (inr result, st') →
  forEach entries (replayOne cls (tolerantFor exchangeName) localTs) st = (inr result, st')
  ∧ debugged st' = debugged st.
Proof.
  revert st. induction entries as [|entry entries IH]; intros st.
  - simpl. unfold mret, Method_ret. by intros [= <- <-].
  - rewrite !forEach_cons.
    destruct (replayOne cls (strictFor exchangeName) localTs entry st)
      as [[e|[]] st1] eqn:Hstrict; [done|].
    destruct (replayOne_tolerant_agrees _ _ _ _ _ _ _ Hstrict) as [-> Hlog1].
    intros Hrest. destruct (IH st1 Hrest) as [-> Hlog2].
    split; [done|]. by rewrite Hlog2.
Qed.

Lemma map_tolerant_agrees cls exchangeName message localTs st result st' :
  map cls (strictFor exchangeName) message localTs st = (inr result, st') →
  map cls (tolerantFor exchangeName) message localTs st = (inr result, st')
  ∧ debugged st' = debugged st.
Proof.
  unfold map. destruct (stream message) as [streamName|]; [|done].
  unfold readInfo, writeInfo, updateInfo, yield, mbind, mret, Method_bind, Method_ret; simpl.
  destruct st as [mapping out dbg]. simpl.
  destruct (mapping !! symbolOf streamName) as [known|] eqn:Hknown; simpl;
    [rewrite Hknown | rewrite lookup_insert_eq]; simpl.
  - destruct (data message) as [snap|d]; destruct (truthy (snapshotProcessed known)); simpl.
    + by intros [= <- <-].
    + change (snapshotBookChange (tolerantFor exchangeName))
        with (snapshotBookChange (strictFor exchangeName)).
      match goal with
      | |- context [forEach ?xs (replayOne cls (strictFor exchangeName) localTs) ?s0] =>
          destruct (forEach xs (replayOne cls (strictFor exchangeName) localTs) s0)
            as [[e|[]] st2] eqn:Hstrict; [done|];
          destruct (forEach_tolerant_agrees _ _ _ _ _ _ _ Hstrict) as [-> Hlog2]
      end.
      simpl. intros [= <- <-]. split; [done|]. simpl. by rewrite Hlog2.
    + match goal with
      | |- context [dispatchMapBookDepthUpdate cls (strictFor exchangeName) d localTs ?s0] =>
          destruct (dispatchMapBookDepthUpdate cls (strictFor exchangeName) d localTs s0)
            as [[e|bookChange] st2] eqn:Hstrict; [done|];
          destruct (dispatch_tolerant_agrees _ _ _ _ _ _ _ Hstrict) as [-> Hlog2]
      end.
      destruct bookChange as [ev|]; unfold yield; simpl; intros [= <- <-];
        (split; [done|]); simpl; by rewrite Hlog2.
    + by intros [= <- <-].
  - destruct (data message) as [snap|d]; simpl; by intros [= <- <-].
Qed.

(** Strictness matters on failure only: whenever the strict mapper's
    call completes without a throw, the tolerant mapper for the same
    exchange, in the same state and on the same message, yields the same
    events and leaves the same state, and nothing is passed to [debug]. *)
Theorem tolerant_agrees_when_strict_completes cls exchangeName mapping message localTs :
  thrown (runMap cls (strictFor exchangeName) mapping message localTs) = None →
  runMap cls (tolerantFor exchangeName) mapping message localTs
  = runMap cls (strictFor exchangeName) mapping message localTs
  ∧ debugLines (runMap cls (tolerantFor exchangeName) mapping message localTs) = [].
Proof.
  unfold runMap.
  destruct (map cls (strictFor exchangeName) message localTs (mkState mapping [] []))
    as [[e|[]] st'] eqn:Hstrict; [done|]. intros _.
  destruct (map_tolerant_agrees _ _ _ _ _ _ _ Hstrict) as [-> Hlog].
  by rewrite Hlog.
Qed.

(** *** After the snapshot *)

(** [info'] is [info] up to [validatedFirstUpdate], which may have been
    set but not unset. *)
Definition onlyValidated (info info' : LocalDepthInfo) : Prop :=
  bufferedUpdates info' = bufferedUpdates info ∧
  snapshotProcessed info' = snapshotProcessed info ∧
  lastUpdateId info' = lastUpdateId info ∧
  (truthy (validatedFirstUpdate info) = true → truthy (validatedFirstUpdate info') = true).

(** Every entry of [mapping] is still there in [mapping'], up to
    [validatedFirstUpdate]. *)
Definition entriesKept (mapping mapping' : gmap string LocalDepthInfo) : Prop :=
  ∀ key info, mapping !! key = Some info →
              ∃ info', mapping' !! key = Some info' ∧ onlyValidated info info'.

Lemma entriesKept_refl mapping : entriesKept mapping mapping.
Proof. intros key info Hinfo. exists info. by repeat split. Qed.

Lemma entriesKept_trans mapping1 mapping2 mapping3 :
  entriesKept mapping1 mapping2 → entriesKept mapping2 mapping3 → entriesKept mapping1 mapping3.
Proof.
  intros H12 H23 key info Hinfo.
  destruct (H12 key info Hinfo) as (info2 & Hinfo2 & Hb & Hs & Hl & Hv).
  destruct (H23 key info2 Hinfo2) as (info3 & Hinfo3 & Hb' & Hs' & Hl' & Hv').
  exists info3. split; [done|]. repeat split; [congruence..|auto].
Qed.

Lemma entriesKept_validated mapping key :
  entriesKept mapping (alter setValidatedFirstUpdate key mapping).
Proof.
  intros k info Hinfo. destruct (decide (key = k)) as [<-|Hne].
  - rewrite lookup_alter_eq, Hinfo. eexists. split; [done|]. by repeat split.
  - rewrite lookup_alter_ne by done. exists info. by repeat split.
Qed.

Lemma dispatch_entriesKept cls this d localTs st :
  entriesKept (symbolToDepthInfoMapping st)
              (symbolToDepthInfoMapping (dispatchMapBookDepthUpdate cls this d localTs st).2).
Proof.
  pose proof (entriesKept_refl (symbolToDepthInfoMapping st)) as Hsame.
  pose proof (entriesKept_validated (symbolToDepthInfoMapping st) (Depth.s d)) as Hset.
  destruct cls; unfold dispatchMapBookDepthUpdate, mapBookDepthUpdate,
    futuresMapBookDepthUpdate, readInfo, updateInfo, debug, throw,
    mbind, mret, Method_bind, Method_ret; simpl;
    destruct (symbolToDepthInfoMapping st !! Depth.s d) as [depthContext|]; simpl; try done.
  - destruct (le_js _ _); simpl; [done|].
    destruct (negb _); simpl; [|done].
    destruct (_ || _); simpl; [done|].
    by destruct (ignoreBookSnapshotOverlapError this).
  - destruct (lt_js _ _); simpl; [done|].
    destruct (negb _); simpl; [|done].
    destruct (_ || _); simpl; [done|].
    by destruct (ignoreBookSnapshotOverlapError this).
Qed.

Lemma replayOne_entriesKept cls this localTs entry st :
  entriesKept (symbolToDepthInfoMapping st)
              (symbolToDepthInfoMapping (replayOne cls this localTs entry st).2).
Proof.
  destruct entry as [d|]; [|apply entriesKept_refl].
  pose proof (dispatch_entriesKept cls this d localTs st) as Hkept.
  unfold replayOne, mbind, Method_bind.
  destruct (dispatchMapBookDepthUpdate cls this d localTs st) as [[e|[ev|]] st1]; done.
Qed.

Lemma forEach_entriesKept cls this localTs entries st :
  entriesKept (symbolToDepthInfoMapping st)
              (symbolToDepthInfoMapping
                 (forEach entries (replayOne cls this localTs) st).2).
Proof.
  revert st. induction entries as [|entry entries IH]; intros st; [apply entriesKept_refl|].
  rewrite forEach_cons.
  pose proof (replayOne_entriesKept cls this localTs entry st) as Hfirst.
  destruct (replayOne cls this localTs entry st) as [[e|[]] st1]; [done|].
  eapply entriesKept_trans; [exact Hfirst|apply IH].
Qed.

(** Once the snapshot of a symbol is processed, no [map] call, whatever
    the message and whichever the symbol it is for, changes the symbol's
    [lastUpdateId], [snapshotProcessed] or buffer; [validatedFirstUpdate]
    can be set but is never unset.  It holds for both mapper classes and
    also when the call throws. *)
Theorem processed_symbol_stays_as_it_is cls this mapping message localTs sym info :
  mapping !! sym = Some info →
  truthy (snapshotProcessed info) = true →
  ∃ info',
    mappingAfter (runMap cls this mapping message localTs) !! sym = Some info' ∧
    onlyValidated info info'.
Proof.
  intros Hinfo Hsnap.
  assert (∃ info', mapping !! sym = Some info' ∧ onlyValidated info info') as Hstart
    by (exists info; by repeat split).
  unfold runMap, map. destruct (stream message) as [streamName|]; [|done].
  unfold readInfo, writeInfo, updateInfo, yield, mbind, mret, Method_bind, Method_ret; simpl.
  destruct (decide (symbolOf streamName = sym)) as [->|Hne].
  - rewrite Hinfo; simpl. rewrite Hinfo, Hsnap.
    destruct (data message) as [snap|d]; simpl; [done|].
    pose proof (dispatch_entriesKept cls this d localTs (mkState mapping [] []) sym info Hinfo)
      as Hkept.
    by destruct (dispatchMapBookDepthUpdate cls this d localTs (mkState mapping [] []))
      as [[e|[ev|]] st1].
  - destruct (mapping !! symbolOf streamName) as [other|] eqn:Hother; simpl;
      [rewrite Hother | rewrite lookup_insert_eq]; simpl.
    + destruct (data message) as [snap|d]; destruct (truthy (snapshotProcessed other)); simpl.
      * done.
      * match goal with
        | |- context [forEach ?xs ?body ?s0] =>
            pose proof (forEach_entriesKept cls this localTs xs s0 sym info) as Hkept;
            destruct (forEach xs body s0) as [[e|[]] st1]
        end; simpl in *; rewrite ?lookup_alter_ne by done;
          apply Hkept; by rewrite lookup_alter_ne.
      * pose proof (dispatch_entriesKept cls this d localTs (mkState mapping [] []) sym info
                      Hinfo) as Hkept.
        by destruct (dispatchMapBookDepthUpdate cls this d localTs (mkState mapping [] []))
          as [[e|[ev|]] st1].
      * by rewrite lookup_alter_ne.
    + destruct (data message) as [snap|d]; simpl;
        by rewrite !lookup_alter_ne, lookup_insert_ne.
Qed.

(** *** The invariant of the mapper state *)

(** What holds of the entry of [sym]: its buffer is the ring buffer of
    size 200 holding some queue of updates that all carry [sym], and once
    the snapshot is processed [lastUpdateId] is a number. *)
Definition goodEntry (sym : string) (info : LocalDepthInfo) : Prop :=
  CircularBuffer._bufferSize (bufferedUpdates info) = 200 ∧
  (∃ q, CircularBuffer.represents (bufferedUpdates info) q ∧
        Forall (λ d, Depth.s d = sym) q) ∧
  (truthy (snapshotProcessed info) = true → is_Some (lastUpdateId info)).

Definition consistent (mapping : gmap string LocalDepthInfo) : Prop :=
  ∀ sym info, mapping !! sym = Some info → goodEntry sym info.

(** A message as the connection delivers it: it has a stream name, and an
    update names in [s] the symbol of its stream. *)
Definition wellFormed (message : BinanceResponse DepthMessage) : Prop :=
  ∃ streamName,
    stream message = Some streamName ∧
    match data message with
    | IsUpdate d => Depth.s d = symbolOf streamName
    | IsSnapshot _ => True
    end.

Lemma consistent_empty : consistent ∅.
Proof. intros sym info Hinfo. by rewrite lookup_empty in Hinfo. Qed.

Lemma consistent_alter mapping sym f :
  consistent mapping →
  (∀ info, goodEntry sym info → goodEntry sym (f info)) →
  consistent (alter f sym mapping).
Proof.
  intros Hcons Hf key info. destruct (decide (sym = key)) as [<-|Hne].
  - rewrite lookup_alter_eq. destruct (mapping !! sym) as [old|] eqn:Hold; [|done].
    intros [= <-]. by apply Hf, Hcons.
  - rewrite lookup_alter_ne by done. apply Hcons.
Qed.

Lemma consistent_insert mapping sym info :
  consistent mapping → goodEntry sym info → consistent (<[sym := info]> mapping).
Proof.
  intros Hcons Hgood key x. destruct (decide (sym = key)) as [<-|Hne].
  - rewrite lookup_insert_eq. by intros [= <-].
  - rewrite lookup_insert_ne by done. apply Hcons.
Qed.

Lemma goodEntry_new sym : goodEntry sym (DepthInfo (CircularBuffer.new 200) None None None).
Proof.
  split; [done|]. split; [|done].
  exists []. split; [apply CircularBuffer.represents_new; lia|done].
Qed.

Lemma goodEntry_validated sym info : goodEntry sym info → goodEntry sym (setValidatedFirstUpdate info).
Proof. by intros (? & ? & ?). Qed.

Lemma goodEntry_processed sym id info :
  goodEntry sym info → goodEntry sym (setSnapshotProcessed id info).
Proof. intros (? & ? & ?). repeat split; [done..|]. intros _. by eexists. Qed.

Lemma goodEntry_cleared sym info : goodEntry sym info → goodEntry sym (clearUpdates info).
Proof.
  intros (Hsize & _ & Hid). split; [done|]. split; [|done].
  exists []. split; [|done]. apply CircularBuffer.represents_clear. rewrite Hsize. lia.
Qed.

Lemma goodEntry_appended sym d info :
  Depth.s d = sym → goodEntry sym info → goodEntry sym (appendUpdate d info).
Proof.
  intros Hsym (Hsize & (q & Hrep & Hall) & Hid). split; [done|]. split; [|done].
  exists (CircularBuffer.enqueue 200 q d). split.
  - rewrite <- Hsize. by apply CircularBuffer.represents_append.
  - unfold CircularBuffer.enqueue. case_decide.
    + apply Forall_app. by split; [|constructor].
    + apply Forall_app. split; [by apply Forall_drop|by constructor].
Qed.

(** The first message for a symbol creates its entry; the call then goes
    on as if the entry had been there. *)
Lemma runMap_creates_entry cls this mapping streamName payload localTs :
  mapping !! symbolOf streamName = None →
  runMap cls this mapping (Response (Some streamName) payload) localTs
  = runMap cls this
      (<[symbolOf streamName := DepthInfo (CircularBuffer.new 200) None None None]> mapping)
      (Response (Some streamName) payload) localTs.
Proof.
  intros Hnone.
  unfold runMap, map, readInfo, writeInfo, mbind, mret, Method_bind, Method_ret; simpl.
  by rewrite Hnone, !lookup_insert_eq.
Qed.

(** The call for the first snapshot of a symbol, by the outcome of the
    replay loop. *)
Lemma runMap_first_snapshot cls this mapping streamName snap localTs info :
  mapping !! symbolOf streamName = Some info →
  truthy (snapshotProcessed info) = false →
  runMap cls this mapping (Response (Some streamName) (IsSnapshot snap)) localTs
  = match forEach (CircularBuffer.items (bufferedUpdates info)) (replayOne cls this localTs)
            (mkState (alter (setSnapshotProcessed (Snapshot.lastUpdateId snap))
                            (symbolOf streamName) mapping)
                     [snapshotBookChange this (symbolOf streamName) snap localTs] []) with
    | (inr _, st') =>
      mkOutcome (yielded st')
                (alter clearUpdates (symbolOf streamName) (symbolToDepthInfoMapping st'))
                (debugged st') None
    | (inl e, st') =>
      mkOutcome (yielded st') (symbolToDepthInfoMapping st') (debugged st') (Some e)
    end.
Proof.
  intros Hinfo Hnot.
  unfold runMap, map, readInfo, writeInfo, updateInfo, yield,
    mbind, mret, Method_bind, Method_ret; simpl.
  repeat (rewrite Hinfo; simpl). rewrite Hnot; simpl.
  by destruct (forEach _ _ _) as [[e|[]] st'].
Qed.

Lemma map_keeps_consistent_known this mapping streamName payload localTs info :
  consistent mapping →
  mapping !! symbolOf streamName = Some info →
  match payload with
  | IsUpdate d => Depth.s d = symbolOf streamName
  | IsSnapshot _ => True
  end →
  let outcome := runMap BinanceBookChangeMapper this mapping
                        (Response (Some streamName) payload) localTs in
  consistent (mappingAfter outcome) ∧
  ∀ e, thrown outcome = Some e →
       ignoreBookSnapshotOverlapError this = false ∧ ∃ text, e = Error text.
Proof.
  intros Hcons Hinfo Hpayload.
  pose proof (Hcons _ _ Hinfo) as Hgood.
  destruct payload as [snap|d]; cbn zeta.
  - (* a snapshot *)
    destruct (truthy (snapshotProcessed info)) eqn:Hsnap.
    + unfold runMap, map, readInfo, writeInfo, mbind, mret, Method_bind, Method_ret; simpl.
      repeat (rewrite Hinfo; simpl). rewrite Hsnap. simpl. by split.
    + rewrite (runMap_first_snapshot _ _ _ _ _ _ info) by done.
      destruct Hgood as (Hsize & (q & Hrep & Hall) & _).
      rewrite (CircularBuffer.represents_items _ _ Hrep).
      set (id := Snapshot.lastUpdateId snap).
      set (st0 := mkState (alter (setSnapshotProcessed id) (symbolOf streamName) mapping) _ []).
      assert (replaying mapping (symbolOf streamName) (bufferedUpdates info) id
                        (validatedFirstUpdate info) st0) as Hrep0.
      { split; simpl.
        - by rewrite lookup_alter_eq, Hinfo.
        - intros other Hne. by rewrite lookup_alter_ne. }
      assert (consistent (symbolToDepthInfoMapping st0)) as Hcons0
        by (apply consistent_alter; [done|]; apply goodEntry_processed).
      assert (ignoreBookSnapshotOverlapError this = true
              ∨ truthy (validatedFirstUpdate info) = true
              ∨ (∀ d, head (freshUpdates id q) = Some d → overlapTest d (Some id) = true)
              ∨ (ignoreBookSnapshotOverlapError this = false
                 ∧ truthy (validatedFirstUpdate info) = false
                 ∧ ∃ d0, head (freshUpdates id q) = Some d0
                         ∧ overlapTest d0 (Some id) = false)) as Hcases.
      { destruct (ignoreBookSnapshotOverlapError this); [by left|].
        destruct (truthy (validatedFirstUpdate info)); [by right; left|].
        destruct (head (freshUpdates id q)) as [d0|]; [|by right; right; left].
        destruct (overlapTest d0 (Some id)) eqn:Htest.
        - right; right; left. by intros d [= <-].
        - right; right; right. eauto. }
      destruct Hcases as [Hok|[Hok|[Hok|(Hstrict & Hv & d0 & Hhead & Hno)]]].
      1-3: destruct (replay_completes this localTs mapping _ _ id q Hall _ st0 Hrep0)
             as (st' & -> & _ & [Hinfo' Hother']); [by auto|]; simpl;
           (split; [|done]);
           intros key x; destruct (decide (symbolOf streamName = key)) as [<-|Hne];
           [ rewrite lookup_alter_eq, Hinfo'; intros [= <-];
             apply goodEntry_cleared;
             (split; [done|]); split; [eauto|by eexists]
           | rewrite lookup_alter_ne, Hother' by done; apply Hcons ].
      rewrite (replay_aborts this localTs mapping _ _ id _ q d0) by done.
      simpl. split; [done|]. intros e [= <-]. eauto.
  - (* an update *)
    destruct (truthy (snapshotProcessed info)) eqn:Hsnap.
    + destruct Hgood as (_ & _ & Hid). destruct (Hid Hsnap) as [lastId Hlast].
      pose proof (consistent_alter mapping (symbolOf streamName) setValidatedFirstUpdate Hcons
                    (goodEntry_validated _)) as Hset.
      step. repeat (rewrite Hinfo; simpl). rewrite Hsnap; simpl.
      rewrite Hpayload. repeat (rewrite Hinfo; simpl). rewrite Hlast; simpl.
      destruct (Depth.u d <=? lastId)%Z; simpl; [by split|].
      destruct (truthy (validatedFirstUpdate info)); simpl; [by split|].
      destruct (_ || _); simpl; [by split|].
      destruct (ignoreBookSnapshotOverlapError this); simpl; [by split|].
      split; [done|]. intros e [= <-]. eauto.
    + step. repeat (rewrite Hinfo; simpl). rewrite Hsnap; simpl.
      split; [|done]. apply consistent_alter; [done|]. intros x. by apply goodEntry_appended.
Qed.

(** The state invariant, and what a call can throw.  From a consistent
    state (a new mapper's is) a well-formed message leaves a consistent
    state; the call never fails on a missing entry or an [undefined]
    [lastUpdateId]: the one thing it can throw is the overlap error, and a
    tolerant mapper throws nothing at all. *)
Theorem map_keeps_consistent this mapping message localTs :
  consistent mapping →
  wellFormed message →
  let outcome := runMap BinanceBookChangeMapper this mapping message localTs in
  consistent (mappingAfter outcome) ∧
  ∀ e, thrown outcome = Some e →
       ignoreBookSnapshotOverlapError this = false ∧ ∃ text, e = Error text.
Proof.
  intros Hcons (streamName & Hstream & Hdata).
  destruct message as [streamOpt payload]. simpl in Hstream, Hdata. subst streamOpt.
  destruct (mapping !! symbolOf streamName) as [info|] eqn:Hinfo.
  - by eapply map_keeps_consistent_known.
  - cbn zeta. rewrite runMap_creates_entry by done.
    eapply map_keeps_consistent_known; [|apply lookup_insert_eq|done].
    apply consistent_insert; [done|apply goodEntry_new].
Qed.

(** *** What a call yields *)

(** An event of this mapper: a book change tagged with the exchange the
    mapper was constructed with. *)
Definition tagged (this : BookChangeMapper) (ev : BookChange) : Prop :=
  type ev = "book_change" ∧ exchange ev = this_exchange this.

Lemma dispatch_yields cls this d localTs st :
  yielded (dispatchMapBookDepthUpdate cls this d localTs st).2 = yielded st ∧
  ∀ ev, (dispatchMapBookDepthUpdate cls this d localTs st).1 = inr (Some ev) → tagged this ev.
Proof.
  destruct cls; unfold dispatchMapBookDepthUpdate, mapBookDepthUpdate,
    futuresMapBookDepthUpdate, readInfo, updateInfo, debug, throw,
    mbind, mret, Method_bind, Method_ret; simpl;
    destruct (symbolToDepthInfoMapping st !! Depth.s d) as [depthContext|]; simpl; try done.
  - destruct (le_js _ _); simpl; [done|].
    destruct (negb _); simpl; [|by split; [|intros ev [= <-]]].
    destruct (_ || _); simpl; [by split; [|intros ev [= <-]]|].
    destruct (ignoreBookSnapshotOverlapError this); simpl; [|done].
    by split; [|intros ev [= <-]].
  - destruct (lt_js _ _); simpl; [done|].
    destruct (negb _); simpl; [|by split; [|intros ev [= <-]]].
    destruct (_ || _); simpl; [by split; [|intros ev [= <-]]|].
    destruct (ignoreBookSnapshotOverlapError this); simpl; [|done].
    by split; [|intros ev [= <-]].
Qed.

Lemma replayOne_yields cls this localTs entry st :
  ∃ evs, yielded (replayOne cls this localTs entry st).2 = yielded st ++ evs ∧
         Forall (tagged this) evs ∧ length evs ≤ 1.
Proof.
  assert (∀ st1, yielded st1 = yielded st →
                 ∃ evs, yielded st1 = yielded st ++ evs ∧
                        Forall (tagged this) evs ∧ length evs ≤ 1) as Hnone.
  { intros st1 Hsame. exists []. rewrite app_nil_r.
    split; [done|]. split; [constructor|simpl; lia]. }
  destruct entry as [d|]; simpl; [|by apply Hnone].
  destruct (dispatch_yields cls this d localTs st) as [Hsame Htag].
  unfold replayOne, mbind, Method_bind.
  destruct (dispatchMapBookDepthUpdate cls this d localTs st) as [[e|[ev|]] st1];
    simpl in *; [by apply Hnone| |by apply Hnone].
  exists [ev]. rewrite Hsame. split; [done|]. split; [|done].
  constructor; [by apply Htag|constructor].
Qed.

Lemma forEach_yields cls this localTs entries st :
  ∃ evs, yielded (forEach entries (replayOne cls this localTs) st).2 = yielded st ++ evs ∧
         Forall (tagged this) evs ∧ length evs ≤ length entries.
Proof.
  revert st. induction entries as [|entry entries IH]; intros st.
  - exists []. simpl. rewrite app_nil_r. split; [done|]. split; [constructor|done].
  - rewrite forEach_cons.
    destruct (replayOne_yields cls this localTs entry st) as (evs1 & Hyield1 & Htag1 & Hlen1).
    destruct (replayOne cls this localTs entry st) as [[e|[]] st1]; simpl in *.
    + exists evs1. split; [done|]. split; [done|lia].
    + destruct (IH st1) as (evs2 & Hyield2 & Htag2 & Hlen2).
      exists (evs1 ++ evs2). rewrite Hyield2, Hyield1, app_assoc.
      split; [done|]. split; [by apply Forall_app|]. rewrite length_app. lia.
Qed.

(** Every event a call yields, in either class and whether or not the
    call then throws, is a [book_change] tagged with the exchange of the
    mapper.  An update message yields at most one event, a snapshot message
    at most one more than the symbol has entries buffered. *)
Theorem map_yields_tagged_events cls this mapping streamName payload localTs :
  let outcome := runMap cls this mapping (Response (Some streamName) payload) localTs in
  Forall (tagged this) (events outcome) ∧
  length (events outcome)
  ≤ match payload with
    | IsUpdate _ => 1
    | IsSnapshot _ => 1 + length (pendingUpdates mapping (symbolOf streamName))
    end.
Proof.
  cbn zeta.
  destruct (mapping !! symbolOf streamName) as [info|] eqn:Hinfo.
  2: { unfold runMap, map, readInfo, writeInfo, updateInfo, yield,
         mbind, mret, Method_bind, Method_ret; simpl.
       rewrite Hinfo; simpl. rewrite lookup_insert_eq; simpl.
       destruct payload as [snap|d]; simpl; [|by split; [constructor|lia]].
       split; [|lia]. by repeat constructor. }
  destruct payload as [snap|d]; destruct (truthy (snapshotProcessed info)) eqn:Hsnap.
  - unfold runMap, map, readInfo, writeInfo, mbind, mret, Method_bind, Method_ret; simpl.
    repeat (rewrite Hinfo; simpl). rewrite Hsnap. simpl. split; [constructor|lia].
  - rewrite (runMap_first_snapshot _ _ _ _ _ _ info) by done.
    unfold pendingUpdates. rewrite Hinfo.
    match goal with
    | |- context [forEach ?xs ?body ?s0] =>
        destruct (forEach_yields cls this localTs xs s0) as (evs & Hyield & Htag & Hlen);
        destruct (forEach xs body s0) as [[e|[]] st']
    end; simpl in *; rewrite Hyield; simpl;
      (split; [constructor; [done|exact Htag]|lia]).
  - pose proof (dispatch_yields cls this d localTs (mkState mapping [] [])) as [Hsame Htag].
    unfold runMap, map, readInfo, writeInfo, yield, mbind, mret, Method_bind, Method_ret; simpl.
    repeat (rewrite Hinfo; simpl). rewrite Hsnap. simpl.
    destruct (dispatchMapBookDepthUpdate cls this d localTs (mkState mapping [] []))
      as [[e|[ev|]] st1]; simpl in *; rewrite Hsame; simpl.
    + split; [constructor|lia].
    + split; [|lia]. constructor; [by apply Htag|constructor].
    + split; [constructor|lia].
  - unfold runMap, map, readInfo, writeInfo, updateInfo, mbind, mret,
      Method_bind, Method_ret; simpl.
    repeat (rewrite Hinfo; simpl). rewrite Hsnap. simpl. split; [constructor|lia].
Qed.

(** *** BinanceFuturesBookChangeMapper *)

(** The futures mapper in the streaming state: an update is dropped
    exactly when its [u] is below [lastUpdateId], so one whose [u] equals
    it is kept; an emitted update is marked as a snapshot exactly when
    [pu] is -1; the state does not change. *)
Theorem futures_streaming_bound this mapping streamName d localTs info lastId :
  mapping !! symbolOf streamName = Some info →
  truthy (snapshotProcessed info) = true →
  truthy (validatedFirstUpdate info) = true →
  lastUpdateId info = Some lastId →
  Depth.s d = symbolOf streamName →
  runMap BinanceFuturesBookChangeMapper this mapping
         (Response (Some streamName) (IsUpdate d)) localTs
  = if decide (Depth.u d < lastId)%Z
    then mkOutcome [] mapping [] None
    else mkOutcome [updateBookChange this d (bool_decide (Depth.pu d = Some (-1)%Z)) localTs]
                   mapping [] None.
Proof.
  intros Hinfo Hsnap Hvalid Hlast Hsym.
  unfold runMap, map, dispatchMapBookDepthUpdate, futuresMapBookDepthUpdate,
    readInfo, writeInfo, updateInfo, yield, debug, throw,
    mbind, mret, Method_bind, Method_ret; simpl.
  repeat (rewrite Hinfo; simpl). rewrite Hsnap; simpl.
  rewrite Hsym. repeat (rewrite Hinfo; simpl). rewrite Hlast; simpl.
  case_decide as Hstale.
  - by assert ((Depth.u d <? lastId)%Z = true) as -> by lia.
  - assert ((Depth.u d <? lastId)%Z = false) as -> by lia.
    by rewrite Hvalid.
Qed.

(** The futures mapper's check of the first update it processes at or
    above [lastUpdateId]: it passes when [U <= lastUpdateId <= u] or when
    [pu] is -1, the in-band snapshot; on failure a strict mapper throws
    and changes nothing, a tolerant one logs, validates and emits. *)
Theorem futures_first_update_overlap_check this mapping streamName d localTs info lastId :
  mapping !! symbolOf streamName = Some info →
  truthy (snapshotProcessed info) = true →
  Depth.s d = symbolOf streamName →
  lastUpdateId info = Some lastId →
  truthy (validatedFirstUpdate info) = false →
  (lastId ≤ Depth.u d)%Z →
  let passes := ((Depth.U d ≤ lastId ∧ lastId ≤ Depth.u d) ∨ Depth.pu d = Some (-1))%Z in
  let outcome := runMap BinanceFuturesBookChangeMapper this mapping
                        (Response (Some streamName) (IsUpdate d)) localTs in
  let validated := <[symbolOf streamName := setValidatedFirstUpdate info]> mapping in
  let event := updateBookChange this d (bool_decide (Depth.pu d = Some (-1)%Z)) localTs in
  let message := NoOverlap d (Some lastId) (this_exchange this) in
  (passes → outcome = mkOutcome [event] validated [] None) ∧
  (¬ passes → ignoreBookSnapshotOverlapError this = false →
     outcome = mkOutcome [] mapping [] (Some (Error message))) ∧
  (¬ passes → ignoreBookSnapshotOverlapError this = true →
     outcome = mkOutcome [event] validated [message] None).
Proof.
  intros Hinfo Hsnap Hsym Hlast Hfirst Hfresh passes outcome validated event message.
  assert (alter setValidatedFirstUpdate (symbolOf streamName) mapping = validated) as Halter.
  { apply map_eq. intros k. unfold validated.
    destruct (decide (symbolOf streamName = k)) as [<-|Hne].
    - by rewrite lookup_alter_eq, lookup_insert_eq, Hinfo.
    - by rewrite lookup_alter_ne, lookup_insert_ne. }
  set (test := ((Depth.U d <=? lastId)%Z && (lastId <=? Depth.u d)%Z)
               || bool_decide (Depth.pu d = Some (-1)%Z)).
  assert (test = true ↔ passes) as Hspec.
  { unfold test, passes.
    rewrite orb_true_iff, andb_true_iff, !Z.leb_le, bool_decide_eq_true. done. }
  assert (outcome =
    if test then mkOutcome [event] validated [] None
    else if ignoreBookSnapshotOverlapError this
         then mkOutcome [event] validated [message] None
         else mkOutcome [] mapping [] (Some (Error message))) as ->.
  { unfold outcome, runMap, map, dispatchMapBookDepthUpdate, futuresMapBookDepthUpdate,
      readInfo, writeInfo, updateInfo, yield, debug, throw,
      mbind, mret, Method_bind, Method_ret; simpl.
    repeat (rewrite Hinfo; simpl). rewrite Hsnap; simpl.
    rewrite Hsym. repeat (rewrite Hinfo; simpl). rewrite Hlast; simpl.
    assert ((Depth.u d <? lastId)%Z = false) as -> by lia.
    rewrite Hfirst; simpl. fold test.
    destruct test; simpl; [by rewrite Halter|].
    destruct (ignoreBookSnapshotOverlapError this); simpl; [by rewrite Halter|done]. }
  destruct test.
  - split; [done|]. split; intros Hno; exfalso; apply Hno, Hspec; done.
  - assert (¬ passes) as Hno by (intros Hp; apply Hspec in Hp; done).
    split; [done|]. split; intros _ ->; done.
Qed.

End mappers.

(** *** Concrete runs *)

(** In the runs below prices and amounts are kept as the strings they
    were parsed from. *)
Definition sampleNumber (text : string) : string := text.

Definition strictMapper : BookChangeMapper := mkMapper "binance" false.
Definition tolerantMapper : BookChangeMapper := mkMapper "binance" true.

Definition sampleUpdate (U u : Z) : Depth.t :=
  Depth.mk 1577836800000 "BTCUSDT" U u [("7195.10", "0.5")] [("7195.90", "0")] None.

Definition snapshot100 : Snapshot.t :=
  Snapshot.mk 100 [("7195.00", "2")] [("7196.00", "3")].

Definition onDepthStream {T} (payload : T) : BinanceResponse T :=
  Response (Some "btcusdt@depth") payload.

Definition infoAfterSnapshot100 (validated : option bool) : LocalDepthInfo :=
  DepthInfo (CircularBuffer.new 200) (Some true) (Some 100%Z) validated.

Definition afterSnapshot100 (validated : option bool) : gmap string LocalDepthInfo :=
  {[ "BTCUSDT" := infoAfterSnapshot100 validated ]}.

Lemma stale_update_discarded_witness :
  runMap sampleNumber BinanceBookChangeMapper strictMapper (afterSnapshot100 None)
         (onDepthStream (IsUpdate (sampleUpdate 95 99))) 5
  = mkOutcome [] (afterSnapshot100 None) [] None.
Proof.
  apply (stale_update_discarded sampleNumber strictMapper (afterSnapshot100 None)
           "btcusdt@depth" (sampleUpdate 95 99) 5 (infoAfterSnapshot100 None) 100%Z);
    [reflexivity..|simpl; lia].
Defined.

Lemma second_snapshot_ignored_witness :
  runMap sampleNumber BinanceBookChangeMapper strictMapper (afterSnapshot100 (Some true))
         (onDepthStream (IsSnapshot (Snapshot.mk 250 [] []))) 5
  = mkOutcome [] (afterSnapshot100 (Some true)) [] None.
Proof.
  apply (second_snapshot_ignored sampleNumber BinanceBookChangeMapper strictMapper
           (afterSnapshot100 (Some true)) "btcusdt@depth" (Snapshot.mk 250 [] []) 5
           (infoAfterSnapshot100 (Some true))); reflexivity.
Defined.

(** The overlap check at [lastUpdateId = 100]: the update [101..105]
    passes; [105..110] fails, which a strict mapper reports by a throw and
    a tolerant one by a debug line. *)
Lemma first_update_overlap_check_witness :
  runMap sampleNumber BinanceBookChangeMapper strictMapper (afterSnapshot100 None)
         (onDepthStream (IsUpdate (sampleUpdate 101 105))) 5
  = mkOutcome [updateBookChange sampleNumber strictMapper (sampleUpdate 101 105) false 5]
              (afterSnapshot100 (Some true)) [] None
  ∧ runMap sampleNumber BinanceBookChangeMapper strictMapper (afterSnapshot100 None)
           (onDepthStream (IsUpdate (sampleUpdate 105 110))) 5
    = mkOutcome [] (afterSnapshot100 None) []
                (Some (Error (NoOverlap (sampleUpdate 105 110) (Some 100%Z) "binance")))
  ∧ runMap sampleNumber BinanceBookChangeMapper tolerantMapper (afterSnapshot100 None)
           (onDepthStream (IsUpdate (sampleUpdate 105 110))) 5
    = mkOutcome [updateBookChange sampleNumber tolerantMapper (sampleUpdate 105 110) false 5]
                (afterSnapshot100 (Some true))
                [NoOverlap (sampleUpdate 105 110) (Some 100%Z) "binance"] None.
Proof.
  split; [|split].
  - apply (first_update_overlap_check sampleNumber strictMapper (afterSnapshot100 None)
             "btcusdt@depth" (sampleUpdate 101 105) 5 (infoAfterSnapshot100 None) 100%Z);
      [reflexivity..|simpl; lia|simpl; lia].
  - apply (first_update_overlap_check sampleNumber strictMapper (afterSnapshot100 None)
             "btcusdt@depth" (sampleUpdate 105 110) 5 (infoAfterSnapshot100 None) 100%Z);
      [reflexivity..|simpl; lia|simpl; lia|reflexivity].
  - apply (first_update_overlap_check sampleNumber tolerantMapper (afterSnapshot100 None)
             "btcusdt@depth" (sampleUpdate 105 110) 5 (infoAfterSnapshot100 None) 100%Z);
      [reflexivity..|simpl; lia|simpl; lia|reflexivity].
Defined.

(** C1 as stated fails past the safe integers.  With
    [lastUpdateId = 2^53 + 2] the sum [lastUpdateId + 1] is the double
    [2^53 + 4]: the update with [U = u = 2^53 + 4] starts above
    [lastUpdateId + 1], and yet the strict mapper lets it pass and emits
    it. *)
Definition infoAfterLargeSnapshot (validated : option bool) : LocalDepthInfo :=
  DepthInfo (CircularBuffer.new 200) (Some true) (Some 9007199254740994%Z) validated.

Lemma first_update_past_safe_integers_passes :
  (9007199254740994 + 1 <? Depth.U (sampleUpdate 9007199254740996 9007199254740996))%Z = true
  ∧ Js.isSafeInteger 9007199254740994 = false
  ∧ runMap sampleNumber BinanceBookChangeMapper strictMapper
           {[ "BTCUSDT" := infoAfterLargeSnapshot None ]}
           (onDepthStream (IsUpdate (sampleUpdate 9007199254740996 9007199254740996))) 5
    = mkOutcome [updateBookChange sampleNumber strictMapper
                                  (sampleUpdate 9007199254740996 9007199254740996) false 5]
                {[ "BTCUSDT" := infoAfterLargeSnapshot (Some true) ]} [] None.
Proof. repeat split. Qed.

Lemma streaming_bound_is_snapshot_id_witness :
  runMap sampleNumber BinanceBookChangeMapper strictMapper (afterSnapshot100 (Some true))
         (onDepthStream (IsUpdate (sampleUpdate 95 100))) 5
  = mkOutcome [] (afterSnapshot100 (Some true)) [] None.
Proof.
  apply (streaming_bound_is_snapshot_id sampleNumber strictMapper (afterSnapshot100 (Some true))
           "btcusdt@depth" (sampleUpdate 95 100) 5 (infoAfterSnapshot100 (Some true)) 100%Z);
    reflexivity.
Defined.

(** C6 as stated fails: after the snapshot with id 100 the update
    [101..105] is accepted, and the later update [102..103], whose [u] is
    below the accepted 105, is emitted as well. *)
Lemma update_below_accepted_id_is_emitted :
  let accepted := runMap sampleNumber BinanceBookChangeMapper strictMapper
                    (afterSnapshot100 None)
                    (onDepthStream (IsUpdate (sampleUpdate 101 105))) 5 in
  let later := runMap sampleNumber BinanceBookChangeMapper strictMapper
                 (mappingAfter accepted)
                 (onDepthStream (IsUpdate (sampleUpdate 102 103))) 6 in
  events accepted = [updateBookChange sampleNumber strictMapper (sampleUpdate 101 105) false 5] ∧
  mappingAfter accepted = afterSnapshot100 (Some true) ∧
  (Depth.u (sampleUpdate 102 103) ≤ Depth.u (sampleUpdate 101 105))%Z ∧
  events later = [updateBookChange sampleNumber strictMapper (sampleUpdate 102 103) false 6] ∧
  events later ≠ [].
Proof. repeat split; try reflexivity; simpl; [lia|discriminate]. Qed.

(** The futures subclass draws the line elsewhere: an update whose [u]
    equals [lastUpdateId] is dropped by the base mapper and kept by the
    futures mapper, which also takes [pu = -1] as an in-band snapshot. *)
Example futures_boundary :
  events (runMap sampleNumber BinanceBookChangeMapper strictMapper (afterSnapshot100 None)
                 (onDepthStream (IsUpdate (sampleUpdate 95 100))) 5) = []
  ∧ events (runMap sampleNumber BinanceFuturesBookChangeMapper strictMapper
                   (afterSnapshot100 None)
                   (onDepthStream (IsUpdate (sampleUpdate 95 100))) 5)
    = [updateBookChange sampleNumber strictMapper (sampleUpdate 95 100) false 5]
  ∧ isSnapshot <$> events (runMap sampleNumber BinanceFuturesBookChangeMapper strictMapper
                                  (afterSnapshot100 None)
                                  (onDepthStream (IsUpdate
                                     (Depth.mk 1577836800000 "BTCUSDT" 200 210 [] []
                                               (Some (-1)%Z)))) 5)
    = [true].
Proof. repeat split. Qed.

(** 201 updates for BTCUSDT, numbered 1 to 201, reach a mapper that has
    not met the symbol. *)
Definition arrivals201 : list (string * Depth.t * Z) :=
  (λ i, ("btcusdt@depth", sampleUpdate i i, i)) <$> seqZ 1 201.

(** Nothing is emitted, and the buffer then yields the updates 2 to 201
    in order: update 1, the oldest, is the one that was evicted. *)
Lemma updates_before_snapshot_are_buffered_witness :
  events (feed sampleNumber BinanceBookChangeMapper strictMapper ∅
               (updateMessage <$> arrivals201)) = []
  ∧ pendingUpdates
      (mappingAfter (feed sampleNumber BinanceBookChangeMapper strictMapper ∅
                          (updateMessage <$> arrivals201))) "BTCUSDT"
    = Some <$> ((λ i, sampleUpdate i i) <$> seqZ 2 200).
Proof.
  destruct (updates_before_snapshot_are_buffered sampleNumber BinanceBookChangeMapper
              strictMapper ∅ "BTCUSDT" [] arrivals201)
    as (Hevents & _ & Hpending & _).
  - reflexivity.
  - apply Forall_fmap, Forall_true. intros i. reflexivity.
  - split; [exact Hevents|].
    etrans; [exact Hpending|]. reflexivity.
Defined.

(** BTCUSDT awaits its snapshot with two updates buffered: [90..95],
    stale against a snapshot with id 100, and [105..110], fresh but without
    overlap. *)
Definition waitingTwo : gmap string LocalDepthInfo :=
  {[ "BTCUSDT" := DepthInfo (CircularBuffer.appendAll (CircularBuffer.new 200)
                               [sampleUpdate 90 95; sampleUpdate 105 110])
                            None None None ]}.

Lemma waitingTwo_awaits :
  awaitingSnapshot waitingTwo "BTCUSDT" [sampleUpdate 90 95; sampleUpdate 105 110].
Proof.
  split; [reflexivity|]. split; [reflexivity|].
  apply (CircularBuffer.represents_appendAll (CircularBuffer.new 200) []
           [sampleUpdate 90 95; sampleUpdate 105 110]).
  apply CircularBuffer.represents_new. lia.
Qed.

(** A tolerant mapper replays the buffer: the snapshot event, then the
    one fresh update; afterwards the buffer is empty. *)
Lemma first_snapshot_replays_buffer_witness :
  events (runMap sampleNumber BinanceBookChangeMapper tolerantMapper waitingTwo
                 (onDepthStream (IsSnapshot snapshot100)) 5)
  = [snapshotBookChange sampleNumber tolerantMapper "BTCUSDT" snapshot100 5;
     updateBookChange sampleNumber tolerantMapper (sampleUpdate 105 110) false 5]
  ∧ pendingUpdates
      (mappingAfter (runMap sampleNumber BinanceBookChangeMapper tolerantMapper waitingTwo
                            (onDepthStream (IsSnapshot snapshot100)) 5)) "BTCUSDT"
    = [].
Proof.
  destruct (first_snapshot_replays_buffer sampleNumber tolerantMapper waitingTwo
              "btcusdt@depth" snapshot100 5 [sampleUpdate 90 95; sampleUpdate 105 110])
    as (Hevents & _ & _ & _ & _ & _ & _ & Hpending & _).
  - exact waitingTwo_awaits.
  - repeat constructor.
  - left. reflexivity.
  - split; [exact Hevents|exact Hpending].
Defined.

(** C3 as stated fails for a strict mapper: with the same buffer the
    replay throws at the update [105..110], after the snapshot event and
    before [clear()]; both buffered updates are still in the buffer. *)
Lemma first_snapshot_strict_abort_keeps_buffer :
  events (runMap sampleNumber BinanceBookChangeMapper strictMapper waitingTwo
                 (onDepthStream (IsSnapshot snapshot100)) 5)
  = [snapshotBookChange sampleNumber strictMapper "BTCUSDT" snapshot100 5]
  ∧ thrown (runMap sampleNumber BinanceBookChangeMapper strictMapper waitingTwo
                   (onDepthStream (IsSnapshot snapshot100)) 5)
    = Some (Error (NoOverlap (sampleUpdate 105 110) (Some 100%Z) "binance"))
  ∧ pendingUpdates
      (mappingAfter (runMap sampleNumber BinanceBookChangeMapper strictMapper waitingTwo
                            (onDepthStream (IsSnapshot snapshot100)) 5)) "BTCUSDT"
    = [Some (sampleUpdate 90 95); Some (sampleUpdate 105 110)]
  ∧ pendingUpdates
      (mappingAfter (runMap sampleNumber BinanceBookChangeMapper strictMapper waitingTwo
                            (onDepthStream (IsSnapshot snapshot100)) 5)) "BTCUSDT"
    ≠ [].
Proof. repeat split; try reflexivity. discriminate. Qed.

(** *** More concrete runs *)

Definition infoWaitingTwo : LocalDepthInfo :=
  DepthInfo (CircularBuffer.appendAll (CircularBuffer.new 200)
               [sampleUpdate 90 95; sampleUpdate 105 110])
            None None None.

Lemma infoWaitingTwo_represents :
  CircularBuffer.represents (bufferedUpdates infoWaitingTwo)
                            [sampleUpdate 90 95; sampleUpdate 105 110].
Proof.
  apply (CircularBuffer.represents_appendAll (CircularBuffer.new 200) []
           [sampleUpdate 90 95; sampleUpdate 105 110]).
  apply CircularBuffer.represents_new. lia.
Qed.

(** The strict mapper stops at the buffered update [105..110]: the
    snapshot event is out, the snapshot is recorded, the buffer is kept. *)
Lemma first_snapshot_strict_abort_witness :
  runMap sampleNumber BinanceBookChangeMapper strictMapper waitingTwo
         (onDepthStream (IsSnapshot snapshot100)) 5
  = mkOutcome [snapshotBookChange sampleNumber strictMapper "BTCUSDT" snapshot100 5]
              (<["BTCUSDT" := setSnapshotProcessed 100 infoWaitingTwo]> waitingTwo) []
              (Some (Error (NoOverlap (sampleUpdate 105 110) (Some 100%Z) "binance"))).
Proof.
  apply (first_snapshot_strict_abort sampleNumber strictMapper waitingTwo "btcusdt@depth"
           snapshot100 5 infoWaitingTwo [sampleUpdate 90 95; sampleUpdate 105 110]
           (sampleUpdate 105 110)); try reflexivity.
  - exact infoWaitingTwo_represents.
  - repeat constructor.
Defined.

Lemma tolerant_agrees_when_strict_completes_witness :
  runMap sampleNumber BinanceBookChangeMapper tolerantMapper (afterSnapshot100 None)
         (onDepthStream (IsUpdate (sampleUpdate 101 105))) 5
  = runMap sampleNumber BinanceBookChangeMapper strictMapper (afterSnapshot100 None)
           (onDepthStream (IsUpdate (sampleUpdate 101 105))) 5
  ∧ debugLines (runMap sampleNumber BinanceBookChangeMapper tolerantMapper
                       (afterSnapshot100 None)
                       (onDepthStream (IsUpdate (sampleUpdate 101 105))) 5) = [].
Proof.
  apply (tolerant_agrees_when_strict_completes sampleNumber BinanceBookChangeMapper "binance"
           (afterSnapshot100 None) (onDepthStream (IsUpdate (sampleUpdate 101 105))) 5).
  reflexivity.
Defined.

(** A second snapshot with another id, sent to a tolerant mapper after
    the first: id 100 stays. *)
Lemma processed_symbol_stays_as_it_is_witness :
  ∃ info',
    mappingAfter (runMap sampleNumber BinanceBookChangeMapper tolerantMapper
                         (afterSnapshot100 None)
                         (onDepthStream (IsSnapshot (Snapshot.mk 250 [] []))) 5)
      !! "BTCUSDT" = Some info'
    ∧ onlyValidated (infoAfterSnapshot100 None) info'.
Proof.
  apply (processed_symbol_stays_as_it_is sampleNumber BinanceBookChangeMapper tolerantMapper
           (afterSnapshot100 None) (onDepthStream (IsSnapshot (Snapshot.mk 250 [] []))) 5
           "BTCUSDT" (infoAfterSnapshot100 None)); reflexivity.
Defined.

(** The first update of a new mapper. *)
Lemma map_keeps_consistent_witness :
  consistent (mappingAfter (runMap sampleNumber BinanceBookChangeMapper strictMapper ∅
                                   (onDepthStream (IsUpdate (sampleUpdate 1 2))) 5))
  ∧ ∀ e, thrown (runMap sampleNumber BinanceBookChangeMapper strictMapper ∅
                        (onDepthStream (IsUpdate (sampleUpdate 1 2))) 5) = Some e →
         ignoreBookSnapshotOverlapError strictMapper = false ∧ ∃ text, e = Error text.
Proof.
  apply (map_keeps_consistent sampleNumber strictMapper ∅
           (onDepthStream (IsUpdate (sampleUpdate 1 2))) 5).
  - exact consistent_empty.
  - exists "btcusdt@depth". split; reflexivity.
Defined.

(** At [lastUpdateId = 100] the futures mapper keeps the update
    [95..100]. *)
Lemma futures_streaming_bound_witness :
  runMap sampleNumber BinanceFuturesBookChangeMapper strictMapper (afterSnapshot100 (Some true))
         (onDepthStream (IsUpdate (sampleUpdate 95 100))) 5
  = mkOutcome [updateBookChange sampleNumber strictMapper (sampleUpdate 95 100) false 5]
              (afterSnapshot100 (Some true)) [] None.
Proof.
  apply (futures_streaming_bound sampleNumber strictMapper (afterSnapshot100 (Some true))
           "btcusdt@depth" (sampleUpdate 95 100) 5 (infoAfterSnapshot100 (Some true)) 100%Z);
    reflexivity.
Defined.

(** An update with [pu = -1] passes the futures check without overlap
    and is emitted as a snapshot. *)
Definition inBandSnapshot : Depth.t :=
  Depth.mk 1577836800000 "BTCUSDT" 200 210 [("7195.10", "0.5")] [] (Some (-1)%Z).

Lemma futures_first_update_overlap_check_witness :
  runMap sampleNumber BinanceFuturesBookChangeMapper strictMapper (afterSnapshot100 None)
         (onDepthStream (IsUpdate inBandSnapshot)) 5
  = mkOutcome [updateBookChange sampleNumber strictMapper inBandSnapshot true 5]
              (afterSnapshot100 (Some true)) [] None.
Proof.
  apply (futures_first_update_overlap_check sampleNumber strictMapper (afterSnapshot100 None)
           "btcusdt@depth" inBandSnapshot 5 (infoAfterSnapshot100 None) 100%Z);
    [reflexivity..|simpl; lia|right; reflexivity].
Defined.

(** ** BinanceFuturesDerivativeTickerMapper *)

Module Ticker.

(** [BinanceFuturesMarkPriceData | BinanceFuturesTickerData].  [map] tells
    the two apart by ['r' in data] and ['c' in data], in two separate
    tests: [pr] holds the mark price [p] and the funding rate [r] when the
    key [r] is there, [c] the last price when the key [c] is there. *)
Record Data : Type := mkData {
  s : string;
  E : Z;
  pr : option (string * string);
  c : option string
}.

Section tickers.
(** The values of [Number(...)], with the value NaN among them: [isNaN]
    tells it.  [Number] gives NaN for a text that is no numeric literal. *)
Context {num : Type} `{EqDecision num} (Number : string → num) (isNaN : num → bool).

Record DerivativeTicker : Type := mkTicker {
  type : string;
  symbol : string;
  exchange : string;
  lastPrice : option num;
  fundingRate : option num;
  markPrice : option num;
  timestamp : option Z;
  localTimestamp : Z
}.

(** Modelled from the spec: a field of the pending-ticker accumulator of
    [./mapper] (not among the sources): its last known value, unknown at
    first, and its "changed since last emission" flag. *)
Record Tracked (A : Type) : Type := mkTracked {
  known : option A;
  changed : bool
}.
Arguments mkTracked {A}.
Arguments known {A}.
Arguments changed {A}.

(** Modelled from the spec: "numeric equality" of a stored number and a
    new one.  NaN equals no number, itself included. *)
Definition sameNumber (stored value : num) : bool :=
  negb (isNaN stored) && negb (isNaN value) && bool_decide (stored = value).

(** Modelled from the spec: the same for two timestamps, by their
    epoch-millisecond values. *)
Definition sameTime (stored value : Z) : bool := bool_decide (stored = value).

(** Modelled from the spec: the update-field operations of the
    accumulator ([updateFundingRate], [updateMarkPrice], [updateLastPrice],
    [updateTimestamp]) on one field: the value is set and the field marked
    only if the new value differs from the stored one; an unknown field
    differs from every value. *)
Definition update {A} (same : A → A → bool) (field : Tracked A) (value : A) : Tracked A :=
  match known field with
  | Some stored => if same stored value then field else mkTracked (Some value) true
  | None => mkTracked (Some value) true
  end.

(** Modelled from the spec: the accumulator [PendingTickerInfoHelper]
    keeps per symbol. *)
Record PendingTickerInfo : Type := mkPending {
  pendingSymbol : string;
  pendingExchange : string;
  pendingFundingRate : Tracked num;
  pendingMarkPrice : Tracked num;
  pendingLastPrice : Tracked num;
  pendingTimestamp : Tracked Z
}.

(** Modelled from the spec: the accumulator a symbol starts with, every
    field unknown and unmarked. *)
Definition newPending (sym exch : string) : PendingTickerInfo :=
  mkPending sym exch (mkTracked None false) (mkTracked None false)
            (mkTracked None false) (mkTracked None false).

(** Modelled from the spec: [updateFundingRate] of the accumulator. *)
Definition updateFundingRate (value : num) (info : PendingTickerInfo) : PendingTickerInfo :=
  mkPending (pendingSymbol info) (pendingExchange info)
            (update sameNumber (pendingFundingRate info) value) (pendingMarkPrice info)
            (pendingLastPrice info) (pendingTimestamp info).

(** Modelled from the spec: [updateMarkPrice] of the accumulator. *)
Definition updateMarkPrice (value : num) (info : PendingTickerInfo) : PendingTickerInfo :=
  mkPending (pendingSymbol info) (pendingExchange info)
            (pendingFundingRate info) (update sameNumber (pendingMarkPrice info) value)
            (pendingLastPrice info) (pendingTimestamp info).

(** Modelled from the spec: [updateLastPrice] of the accumulator. *)
Definition updateLastPrice (value : num) (info : PendingTickerInfo) : PendingTickerInfo :=
  mkPending (pendingSymbol info) (pendingExchange info)
            (pendingFundingRate info) (pendingMarkPrice info)
            (update sameNumber (pendingLastPrice info) value) (pendingTimestamp info).

(** Modelled from the spec: [updateTimestamp] of the accumulator. *)
Definition updateTimestamp (value : Z) (info : PendingTickerInfo) : PendingTickerInfo :=
  mkPending (pendingSymbol info) (pendingExchange info)
            (pendingFundingRate info) (pendingMarkPrice info)
            (pendingLastPrice info) (update sameTime (pendingTimestamp info) value).

(** Modelled from the spec: [hasChanged()] of the accumulator: whether any
    field is marked since the last snapshot extraction. *)
Definition hasChanged (info : PendingTickerInfo) : bool :=
  changed (pendingFundingRate info) || changed (pendingMarkPrice info)
  || changed (pendingLastPrice info) || changed (pendingTimestamp info).

Definition unmark {A} (field : Tracked A) : Tracked A := mkTracked (known field) false.

(** Modelled from the spec: [getSnapshot(localTimestamp)] of the
    accumulator: the ticker built from the current field values, and the
    accumulator with every mark cleared. *)
Definition getSnapshot (localTs : Z) (info : PendingTickerInfo)
    : DerivativeTicker * PendingTickerInfo :=
  (mkTicker "derivative_ticker" (pendingSymbol info) (pendingExchange info)
            (known (pendingLastPrice info)) (known (pendingFundingRate info))
            (known (pendingMarkPrice info)) (known (pendingTimestamp info)) localTs,
   mkPending (pendingSymbol info) (pendingExchange info)
             (unmark (pendingFundingRate info)) (unmark (pendingMarkPrice info))
             (unmark (pendingLastPrice info)) (unmark (pendingTimestamp info))).

(** The state a [map] call can touch: the accumulators held by
    [pendingTickerInfoHelper], and the tickers yielded so far. *)
Record State : Type := mkState {
  pendingTickers : gmap string PendingTickerInfo;
  yielded : list DerivativeTicker
}.

(** Modelled from the spec: [getPendingTickerInfo(symbol, exchange)] of
    the helper: the accumulator of the symbol, made on first use. *)
Definition getPendingTickerInfo (sym exch : string) : Method State PendingTickerInfo := λ st,
  match pendingTickers st !! sym with
  | Some info => (inr info, st)
  | None => (inr (newPending sym exch),
             mkState (<[sym := newPending sym exch]> (pendingTickers st)) (yielded st))
  end.

(** A method call on the accumulator of [sym], through the reference that
    [getPendingTickerInfo] returned. *)
Definition onPending (sym : string) (f : PendingTickerInfo → PendingTickerInfo)
    : Method State unit := λ st,
  (inr (), mkState (alter f sym (pendingTickers st)) (yielded st)).

Definition readPending (sym : string) : Method State (option PendingTickerInfo) := λ st,
  (inr (pendingTickers st !! sym), st).

Definition yield (ticker : DerivativeTicker) : Method State unit := λ st,
  (inr (), mkState (pendingTickers st) (yielded st ++ [ticker])).

(** [BinanceFuturesDerivativeTickerMapper.map] *)
Definition map (message : BinanceResponse Data) (localTs : Z) : Method State unit :=
  let d := data message in
  getPendingTickerInfo (s d) "binance-futures" ;;
  (if pr d is Some (p, r) then
     onPending (s d) (updateFundingRate (Number r)) ;;
     onPending (s d) (updateMarkPrice (Number p)) ;;
     onPending (s d) (updateTimestamp (E d))
   else mret ()) ;;
  (if c d is Some last then
     onPending (s d) (updateLastPrice (Number last)) ;;
     onPending (s d) (updateTimestamp (E d))
   else mret ()) ;;
  pendingTickerInfo ← readPending (s d);
  match pendingTickerInfo with
  | None => throw TypeError
  | Some info =>
    if hasChanged info then
      yield (getSnapshot localTs info).1 ;;
      onPending (s d) (λ current, (getSnapshot localTs current).2)
    else mret ()
  end.

(** What a caller that drains the generator observes. *)
Definition runMap (pending : gmap string PendingTickerInfo)
    (message : BinanceResponse Data) (localTs : Z)
    : list DerivativeTicker * gmap string PendingTickerInfo :=
  let st := (map message localTs (mkState pending [])).2 in
  (yielded st, pendingTickers st).



(** *** One message on one accumulator *)

#[local] Arguments hasChanged : simpl never.
#[local] Arguments getSnapshot : simpl never.
#[local] Arguments updateFundingRate : simpl never.
#[local] Arguments updateMarkPrice : simpl never.
#[local] Arguments updateLastPrice : simpl never.
#[local] Arguments updateTimestamp : simpl never.


































End tickers.

(** In the runs below a number is kept as the text it was parsed from,
    as in the runs of the book-change mapper.  A text of decimal digits with
    at most one point reads as a number; any other text reads as NaN here,
    as [Number('abc')] does.  (JavaScript reads more texts as numbers, with
    a sign, an exponent or spaces around them; none occurs below.) *)
Definition isDigit (ch : ascii) : bool :=
  let n := N_of_ascii ch in ((48 <=? n) && (n <=? 57))%N.

Fixpoint decimalLiteral (seenPoint seenDigit : bool) (text : string) : bool :=
  match text with
  | EmptyString => seenDigit
  | String ch rest =>
    if isDigit ch then decimalLiteral seenPoint true rest
    else if Ascii.eqb ch "." then negb seenPoint && decimalLiteral true seenDigit rest
    else false
  end.

Definition sampleIsNaN (text : string) : bool := negb (decimalLiteral false false text).





End Ticker.

(** ** canHandle

    The three [canHandle] methods read their argument and nothing else;
    they are typed here as methods over whatever state [S] their mapper
    holds. *)

(** [BinanceTradesMapper.canHandle] *)
Definition tradesCanHandle {S T} (message : BinanceResponse T) : Method S bool :=
  match stream message with
  | None => mret false
  | Some streamName => mret (Js.endsWith streamName "@trade")
  end.

(** [BinanceBookChangeMapper.canHandle] *)
Definition bookChangeCanHandle {S T} (message : BinanceResponse T) : Method S bool :=
  match stream message with
  | None => mret false
  | Some streamName => mret (Js.includes streamName "@depth")
  end.

(** [BinanceFuturesDerivativeTickerMapper.canHandle] *)
Definition derivativeTickerCanHandle {S T} (message : BinanceResponse T) : Method S bool :=
  match stream message with
  | None => mret false
  | Some streamName =>
    mret (Js.includes streamName "@markPrice" || Js.endsWith streamName "@ticker")
  end.

Example canHandle_routes :
  tradesCanHandle (Response (Some "btcusdt@trade") ()) () = (inr true, ())
  ∧ bookChangeCanHandle (Response (Some "btcusdt@depth@100ms") ()) () = (inr true, ())
  ∧ bookChangeCanHandle (Response (Some "btcusdt@trade") ()) () = (inr false, ())
  ∧ derivativeTickerCanHandle (Response (Some "btcusdt@markPrice@1s") ()) () = (inr true, ())
  ∧ derivativeTickerCanHandle (Response (Some "btcusdt@ticker") ()) () = (inr true, ()).
Proof. repeat split. Qed.

(** C10: on a message whose [stream] is [undefined] each of the three
    [canHandle] methods returns [false] and does not throw; on any message
    each returns a boolean and leaves the mapper state as it found it. *)
Theorem canHandle_total_and_pure {S T : Type} (payload : T) (message : BinanceResponse T) (st : S) :
  tradesCanHandle (Response None payload) st = (inr false, st) ∧
  bookChangeCanHandle (Response None payload) st = (inr false, st) ∧
  derivativeTickerCanHandle (Response None payload) st = (inr false, st) ∧
  (∃ answer, tradesCanHandle message st = (inr answer, st)) ∧
  (∃ answer, bookChangeCanHandle message st = (inr answer, st)) ∧
  (∃ answer, derivativeTickerCanHandle message st = (inr answer, st)).
Proof.
  repeat split;
    unfold tradesCanHandle, bookChangeCanHandle, derivativeTickerCanHandle;
    destruct (stream message); eauto.
Qed.

(** ** BinanceTradesMapper.map *)

(** [BinanceTradeData] *)
Module TradeData.
Record data : Type := mk {
  s : string;
  t : Z;
  p : string;
  q : string;
  T : Z;
  m : bool
}.
End TradeData.

Module Trades.

Inductive Side : Type := buy | sell.

Section trades.
(** [Number(...)] and [String(...)] of a number stay abstract. *)
Context {num : Type} (Number : string → num) (StringOf : Z → string).

Record Trade : Type := mkTrade {
  type : string;
  symbol : string;
  exchange : string;
  id : string;
  price : num;
  amount : num;
  side : Side;
  timestamp : Z;
  localTimestamp : Z
}.

(** [BinanceTradesMapper.map]: the trades it yields; it reads [_exchange]
    and assigns to nothing. *)
Definition map (_exchange : string) (binanceTradeResponse : BinanceResponse TradeData.data)
    (localTs : Z) : list Trade :=
  let binanceTrade := data binanceTradeResponse in
  [mkTrade "trade" (TradeData.s binanceTrade) _exchange
           (StringOf (TradeData.t binanceTrade))
           (Number (TradeData.p binanceTrade)) (Number (TradeData.q binanceTrade))
           (if TradeData.m binanceTrade then sell else buy)
           (TradeData.T binanceTrade) localTs].

End trades.

End Trades.

(** ASCII lower-casing: the letters [A] to [Z] go to [a] to [z].  It is
    what [toLocaleLowerCase] does to ASCII text in every locale but the
    Turkic ones, where [I] goes to the dotless [i]. *)
Definition lowerChar (c : ascii) : ascii :=
  let n := N_of_ascii c in
  if ((65 <=? n) && (n <=? 90))%N then ascii_of_N (n + 32) else c.

Fixpoint asciiLowerCase (text : string) : string :=
  match text with
  | EmptyString => EmptyString
  | String c rest => String (lowerChar c) (asciiLowerCase rest)
  end.

(** A subscription filter, [{ channel, symbols }]. *)
Record Filter : Type := mkFilter {
  channel : string;
  symbols : option (list string)
}.

(** The name of the stream of [name] on [channelName], as Binance builds
    it and as [map] takes it apart. *)
Definition streamOf (name channelName : string) : string :=
  name +:+ "@" +:+ channelName.

(** *** Facts about stream names *)

Lemma string_length_app (x y : string) :
  String.length (x +:+ y) = String.length x + String.length y.
Proof.
  induction x as [|c x IH]; [done|].
  change (S (String.length (x +:+ y)) = S (String.length x + String.length y)).
  by rewrite IH.
Qed.

Lemma substring_whole (text : string) : substring 0 (String.length text) text = text.
Proof. induction text as [|c text IH]; [done|]. simpl. by rewrite IH. Qed.

Lemma substring_skip (x y : string) k n :
  substring (String.length x + k) n (x +:+ y) = substring k n y.
Proof.
  induction x as [|c x IH]; [done|].
  change (substring (S (String.length x + k)) n (String c (x +:+ y)) = substring k n y).
  simpl. apply IH.
Qed.

(** Whether a name ends with [suffix] is decided by any tail of the name
    that is at least as long as [suffix]. *)
Lemma endsWith_tail (x y suffix : string) :
  String.length suffix ≤ String.length y →
  Js.endsWith (x +:+ y) suffix = Js.endsWith y suffix.
Proof.
  intros Hlen. unfold Js.endsWith. rewrite string_length_app.
  assert ((String.length suffix <=? String.length x + String.length y) = true) as ->
    by (apply Nat.leb_le; lia).
  assert ((String.length suffix <=? String.length y) = true) as ->
    by (apply Nat.leb_le; lia).
  replace (String.length x + String.length y - String.length suffix)
    with (String.length x + (String.length y - String.length suffix)) by lia.
  by rewrite substring_skip.
Qed.

Lemma prefix_of_app (part rest : string) : String.prefix part (part +:+ rest) = true.
Proof.
  induction part as [|c part IH]; simpl; [by destruct rest|].
  destruct (ascii_dec c c); [apply IH|done].
Qed.

Lemma includes_cons c text part :
  Js.includes (String c text) part = String.prefix part (String c text) || Js.includes text part.
Proof. done. Qed.

Lemma includes_head (text part : string) :
  String.prefix part text = true → Js.includes text part = true.
Proof. intros Hpre. destruct text; cbn [Js.includes]; by rewrite Hpre. Qed.

Lemma includes_after (x part rest : string) :
  Js.includes (x +:+ part +:+ rest) part = true.
Proof.
  induction x as [|c x IH].
  - change ("" +:+ part +:+ rest) with (part +:+ rest).
    apply includes_head, prefix_of_app.
  - change (String c x +:+ part +:+ rest) with (String c (x +:+ part +:+ rest)).
    rewrite includes_cons, IH. apply orb_true_r.
Qed.

Lemma no_at_cons c text :
  Js.includes (String c text) "@" = false → c ≠ "@"%char ∧ Js.includes text "@" = false.
Proof.
  rewrite includes_cons. intros [Hhead Htail]%orb_false_elim. split; [|done].
  intros ->. simpl in Hhead. by destruct text.
Qed.

(** A name without ['@'] contains no part that starts with ['@']: such a
    part can only lie in what follows the name. *)
Lemma includes_past_name (name rest part : string) :
  Js.includes name "@" = false →
  Js.includes (name +:+ rest) (String "@" part) = Js.includes rest (String "@" part).
Proof.
  induction name as [|c name IH]; intros Hno; [done|].
  apply no_at_cons in Hno as [Hc Hno].
  change (String c name +:+ rest) with (String c (name +:+ rest)).
  rewrite includes_cons, IH by done.
  assert (String.prefix (String "@" part) (String c (name +:+ rest)) = false) as ->; [|done].
  cbn [String.prefix]. destruct (ascii_dec "@" c) as [Heq|]; [by destruct Hc|done].
Qed.

Lemma prefix_substring (text : string) n :
  String.prefix (substring 0 n text) text = true.
Proof.
  revert n. induction text as [|c text IH]; intros [|n]; try done.
  cbn [substring String.prefix]. destruct (ascii_dec c c); [apply IH|done].
Qed.

Lemma includes_substring (text : string) k n :
  Js.includes text (substring k n text) = true.
Proof.
  revert text. induction k as [|k IH]; intros text.
  - apply includes_head, prefix_substring.
  - destruct text as [|c text]; [by destruct n|].
    rewrite includes_cons. cbn [substring]. rewrite IH. apply orb_true_r.
Qed.

(** What a name ends with, it contains. *)
Lemma endsWith_not_included (text suffix : string) :
  Js.includes text suffix = false → Js.endsWith text suffix = false.
Proof.
  intros Hno. unfold Js.endsWith.
  destruct (_ <=? _); [|done].
  destruct (String.eqb_spec (substring (String.length text - String.length suffix)
                                       (String.length suffix) text) suffix) as [Heq|]; [|done].
  by rewrite <- Heq, includes_substring in Hno.
Qed.

Ltac route :=
  repeat match goal with
         | H : _ ∈ _ :: _ |- _ => apply elem_of_cons in H as [->|H]
         | H : _ ∈ [] |- _ => by apply elem_of_nil in H
         end.

(** ** getFilters *)

Section subscriptions.
(** [String.prototype.toLocaleLowerCase] follows the locale of the host,
    which the code does not choose: it is a parameter. *)
Variable toLocaleLowerCase : string → string.

(** [lowerCaseSymbols]: [undefined] stays [undefined]. *)
Definition lowerCaseSymbols (symbols : option (list string)) : option (list string) :=
  match symbols with
  | Some names => Some (toLocaleLowerCase <$> names)
  | None => None
  end.

(** [BinanceTradesMapper.getFilters] *)
Definition tradesGetFilters (requested : option (list string)) : list Filter :=
  let lowered := lowerCaseSymbols requested in
  [mkFilter "trade" lowered].

(** [BinanceBookChangeMapper.getFilters] *)
Definition bookChangeGetFilters (requested : option (list string)) : list Filter :=
  let lowered := lowerCaseSymbols requested in
  [mkFilter "depth" lowered; mkFilter "depthSnapshot" lowered].

(** [BinanceFuturesDerivativeTickerMapper.getFilters] *)
Definition derivativeTickerGetFilters (requested : option (list string)) : list Filter :=
  let lowered := lowerCaseSymbols requested in
  [mkFilter "markPrice" lowered; mkFilter "ticker" lowered].

(** Subscriptions and routing agree: for every filter a mapper's
    [getFilters] returns and every name, the stream of that name on the
    filter's channel is accepted by the [canHandle] of the same mapper. *)
Theorem subscribed_streams_are_handled {S T : Type} (requested : option (list string))
    (filter : Filter) (name : string) (payload : T) (st : S) :
  (filter ∈ tradesGetFilters requested →
   tradesCanHandle (Response (Some (streamOf name (channel filter))) payload) st
   = (inr true, st)) ∧
  (filter ∈ bookChangeGetFilters requested →
   bookChangeCanHandle (Response (Some (streamOf name (channel filter))) payload) st
   = (inr true, st)) ∧
  (filter ∈ derivativeTickerGetFilters requested →
   derivativeTickerCanHandle (Response (Some (streamOf name (channel filter))) payload) st
   = (inr true, st)).
Proof.
  unfold tradesGetFilters, bookChangeGetFilters, derivativeTickerGetFilters,
    tradesCanHandle, bookChangeCanHandle, derivativeTickerCanHandle, streamOf.
  split; [|split]; intros Hin; route; cbn [channel stream]; unfold mret, Method_ret;
    do 2 f_equal.
  - by rewrite endsWith_tail by (simpl; lia).
  - apply (includes_after name "@depth" "").
  - apply (includes_after name "@depth" "Snapshot").
  - apply orb_true_iff. left. apply (includes_after name "@markPrice" "").
  - rewrite endsWith_tail by (simpl; lia). apply orb_true_r.
Qed.

(** Routing is exclusive: for a name without ['@'], the stream of a
    channel that one of the three mappers subscribes to is refused by the
    [canHandle] of the other two. *)
Theorem subscribed_streams_are_refused_by_others {S T : Type}
    (requested : option (list string)) (filter : Filter) (name : string)
    (payload : T) (st : S) :
  Js.includes name "@" = false →
  let message := Response (Some (streamOf name (channel filter))) payload in
  (filter ∈ tradesGetFilters requested →
   bookChangeCanHandle message st = (inr false, st) ∧
   derivativeTickerCanHandle message st = (inr false, st)) ∧
  (filter ∈ bookChangeGetFilters requested →
   tradesCanHandle message st = (inr false, st) ∧
   derivativeTickerCanHandle message st = (inr false, st)) ∧
  (filter ∈ derivativeTickerGetFilters requested →
   tradesCanHandle message st = (inr false, st) ∧
   bookChangeCanHandle message st = (inr false, st)).
Proof.
  intros Hname. cbn zeta.
  unfold tradesGetFilters, bookChangeGetFilters, derivativeTickerGetFilters,
    tradesCanHandle, bookChangeCanHandle, derivativeTickerCanHandle, streamOf.
  split; [|split]; intros Hin; route; cbn [channel stream]; unfold mret, Method_ret;
    (split; do 2 f_equal);
    rewrite ?orb_false_iff; repeat split;
    try apply endsWith_not_included;
    by rewrite (includes_past_name name _ _ Hname).
Qed.

(** *** Symbols, from subscription to state key *)

Lemma upperChar_lowerChar c : Js.upperChar c = c → Js.upperChar (lowerChar c) = c.
Proof.
  destruct c as [[] [] [] [] [] [] [] []]; vm_compute; intros Hupper;
    first [reflexivity | discriminate Hupper].
Qed.

Lemma lowerChar_not_at c : c ≠ "@"%char → Ascii.eqb (lowerChar c) "@" = false.
Proof.
  destruct c as [[] [] [] [] [] [] [] []]; intros Hc;
    first [reflexivity | by destruct Hc].
Qed.

Lemma toUpperCase_asciiLowerCase (name : string) :
  Js.toUpperCase name = name → Js.toUpperCase (asciiLowerCase name) = name.
Proof.
  induction name as [|c name IH]; [done|].
  cbn [Js.toUpperCase asciiLowerCase]. intros [= Hc Hname].
  by rewrite upperChar_lowerChar, IH.
Qed.

Lemma splitHead_lowered (name rest : string) :
  Js.includes name "@" = false →
  Js.splitHead "@" (asciiLowerCase name +:+ "@" +:+ rest) = asciiLowerCase name.
Proof.
  induction name as [|c name IH]; intros Hno; [done|].
  apply no_at_cons in Hno as [Hc Hno].
  change (Js.splitHead "@" (String (lowerChar c) (asciiLowerCase name +:+ "@" +:+ rest))
          = String (lowerChar c) (asciiLowerCase name)).
  cbn [Js.splitHead]. by rewrite lowerChar_not_at, IH.
Qed.

(** From [getFilters] to the key of [map]: an ASCII symbol requested in
    upper case and without ['@'], on a host whose locale lower-cases it as
    ASCII does, is subscribed in lower case, at the same position of the
    filter's list, and the stream of the subscribed name on the filter's
    channel is filed by [map] under the symbol as requested. *)
Theorem subscribed_symbol_maps_back (names : list string) (filter : Filter) (i : nat)
    (name : string) :
  filter ∈ bookChangeGetFilters (Some names) →
  names !! i = Some name →
  Js.isAscii name = true →
  toLocaleLowerCase name = asciiLowerCase name →
  Js.toUpperCase name = name →
  Js.includes name "@" = false →
  ∃ subscribed,
    symbols filter = Some subscribed ∧
    length subscribed = length names ∧
    subscribed !! i = Some (toLocaleLowerCase name) ∧
    symbolOf (streamOf (toLocaleLowerCase name) (channel filter)) = name.
Proof.
  intros Hin Hname _ Hhost Hupper Hno.
  exists (toLocaleLowerCase <$> names).
  assert (symbols filter = Some (toLocaleLowerCase <$> names)) as ->
    by (unfold bookChangeGetFilters in Hin; route; done).
  split; [done|]. split; [apply length_fmap|].
  split; [by rewrite list_lookup_fmap, Hname|].
  unfold symbolOf, streamOf.
  by rewrite Hhost, splitHead_lowered, toUpperCase_asciiLowerCase.
Qed.

End subscriptions.

(** *** Concrete streams *)

Lemma subscribed_streams_are_refused_by_others_witness :
  bookChangeCanHandle (Response (Some "btcusdt@trade") ()) () = (inr false, ())
  ∧ derivativeTickerCanHandle (Response (Some "btcusdt@trade") ()) () = (inr false, ()).
Proof.
  apply (proj1 (subscribed_streams_are_refused_by_others asciiLowerCase (Some ["BTCUSDT"])
                  (mkFilter "trade" (Some ["btcusdt"])) "btcusdt" () () eq_refl)).
  constructor.
Defined.

Lemma subscribed_symbol_maps_back_witness :
  ∃ subscribed,
    symbols (mkFilter "depth" (Some ["btcusdt"; "ethbtc"])) = Some subscribed ∧
    length subscribed = 2 ∧
    subscribed !! 1 = Some "ethbtc" ∧
    symbolOf "ethbtc@depth" = "ETHBTC".
Proof.
  apply (subscribed_symbol_maps_back asciiLowerCase ["BTCUSDT"; "ETHBTC"]
           (mkFilter "depth" (Some ["btcusdt"; "ethbtc"])) 1 "ETHBTC");
    [constructor|reflexivity..].
Defined.

End Binance.

(** ** The mapper tables and the normalize entry points *)

Module Registry.

(** The mapper objects that [index.ts] imports ready-made from the
    exchange modules. *)
Inductive ModuleObject : Type :=
| bitmexTradesMapper | binanceDexTradesMapper | bitflyerTradesMapper
| bitstampTradesMapper | coinbaseTradesMapper | cryptofacilitiesTradesMapper
| deribitTradesMapper | ftxTradesMapper | geminiTradesMapper | krakenTradesMapper
| hitBtcTradesMapper
| binanceDexBookChangeMapper | bitflyerBookChangeMapper | coinbaseBookChangMapper
| cryptofacilitiesBookChangeMapper | deribitBookChangeMapper | ftxBookChangeMapper
| geminiBookChangeMapper | krakenBookChangeMapper | hitBtcBookChangeMapper.

(** The mapper classes that [index.ts] imports and constructs. *)
Inductive Class : Type :=
| BinanceTradesMapper | BinanceBookChangeMapper | BinanceFuturesBookChangeMapper
| BinanceFuturesDerivativeTickerMapper
| BitfinexTradesMapper | BitfinexBookChangeMapper | BitfinexDerivativeTickerMapper
| BitmexBookChangeMapper | BitmexDerivativeTickerMapper
| BitstampBookChangeMapper
| BybitTradesMapper | BybitBookChangeMapper | BybitDerivativeTickerMapper
| CryptofacilitiesDerivativeTickerMapper | DeribitDerivativeTickerMapper
| HuobiTradesMapper | HuobiBookChangeMapper
| OkexTradesMapper | OkexBookChangeMapper | OkexDerivativeTickerMapper.

(** A constructor argument: a string literal or a boolean. *)
Inductive Arg : Type :=
| Str (text : string)
| Flag (value : bool).

(** What the body of a table entry evaluates: the name of an imported
    object, or a [new] expression. *)
Inductive Made : Type :=
| Existing (object : ModuleObject)
| New (class : Class) (args : list Arg).

(** The value a normalize function returns: an imported object, the
    instance a [new] has just put at an address of the heap, or, when the
    lookup found an inherited built-in function instead of a table entry,
    what that function returned, which is no mapper whatever the cast says. *)
Inductive Mapper : Type :=
| Shared (object : ModuleObject)
| Instance (address : nat)
| NotAMapper (name : string).

(** What a normalize call can throw: the [Error] it builds, by its
    message, or the TypeError of a call that cannot be made. *)
Inductive Thrown : Type :=
| Error (message : string)
| TypeError.

(** The property names that every object literal inherits from
    [Object.prototype]. *)
Definition objectPrototypeNames : list string :=
  [ "constructor"; "hasOwnProperty"; "isPrototypeOf"; "propertyIsEnumerable";
    "toLocaleString"; "toString"; "valueOf";
    "__defineGetter__"; "__defineSetter__"; "__lookupGetter__"; "__lookupSetter__";
    "__proto__" ].

(** [new Date('2019-12-05').valueOf()] and the other cutover dates: a
    date-only string is midnight UTC. *)
Definition date_2019_12_05 : Z := 1575504000000.
Definition date_2019_12_24 : Z := 1577145600000.
Definition date_2020_02_08 : Z := 1581120000000.
Definition date_2020_02_13 : Z := 1581552000000.

Section tables.
(** [ONE_SEC_IN_MS] is imported from [../handy], which is not among the
    sources. *)
Variable ONE_SEC_IN_MS : Z.

(** The values of [Number(...)] and [String(...)], as in the Binance
    mappers. *)
Context {num : Type} `{EqDecision num} (Number : string → num) (isNaN : num → bool)
        (StringOf : Z → string).

(** Modelled from the spec: the mapper classes of the other exchange
    modules (bitfinex, bitmex, bitstamp, bybit, cryptofacilities, deribit,
    huobi, okex), which are not among the sources.  An instance holds its
    state, [foreign], in its own fields ("fresh per-symbol state"), and
    [map] works on the instance it is called on: from a raw message it
    gives what the call shows and the fields afterwards. *)
Context {foreign raw shown : Type}
        (foreignInitial : Class → list Arg → foreign)
        (foreignMap : Class → list Arg → foreign → raw → Z → shown * foreign).

(** The built-in functions of [Object.prototype], called as a plain
    function with the argument the normalize function passes, if any: such
    a call returns a value or throws a TypeError, as the language says for
    that function; [builtinThrows] tells which. *)
Variable builtinThrows : string → option Z → bool.

Definition THREE_MINUTES_IN_MS : Z := 3 * 60 * ONE_SEC_IN_MS.

(** [isRealTime(date)]; [now] is what [new Date().valueOf()] reads. *)
Definition isRealTime (now : Z) (date : Z) : bool :=
  (now <? date + THREE_MINUTES_IN_MS)%Z.

Definition tradesMappers : list (string * Made) :=
  [ ("bitmex", Existing bitmexTradesMapper);
    ("binance", New BinanceTradesMapper [Str "binance"]);
    ("binance-us", New BinanceTradesMapper [Str "binance-us"]);
    ("binance-jersey", New BinanceTradesMapper [Str "binance-jersey"]);
    ("binance-futures", New BinanceTradesMapper [Str "binance-futures"]);
    ("binance-dex", Existing binanceDexTradesMapper);
    ("bitfinex", New BitfinexTradesMapper [Str "bitfinex"]);
    ("bitfinex-derivatives", New BitfinexTradesMapper [Str "bitfinex-derivatives"]);
    ("bitfinex-alts", New BitfinexTradesMapper [Str "bitfinex-alts"]);
    ("bitflyer", Existing bitflyerTradesMapper);
    ("bitstamp", Existing bitstampTradesMapper);
    ("coinbase", Existing coinbaseTradesMapper);
    ("cryptofacilities", Existing cryptofacilitiesTradesMapper);
    ("deribit", Existing deribitTradesMapper);
    ("ftx", Existing ftxTradesMapper);
    ("gemini", Existing geminiTradesMapper);
    ("kraken", Existing krakenTradesMapper);
    ("okex", New OkexTradesMapper [Str "okex"; Str "spot"]);
    ("okex-futures", New OkexTradesMapper [Str "okex-futures"; Str "futures"]);
    ("okex-swap", New OkexTradesMapper [Str "okex-swap"; Str "swap"]);
    ("okex-options", New OkexTradesMapper [Str "okex-options"; Str "option"]);
    ("huobi", New HuobiTradesMapper [Str "huobi"]);
    ("huobi-dm", New HuobiTradesMapper [Str "huobi-dm"]);
    ("bybit", New BybitTradesMapper [Str "bybit"]);
    ("okcoin", New OkexTradesMapper [Str "okcoin"; Str "spot"]);
    ("hitbtc", Existing hitBtcTradesMapper) ].

(** The entries of [bookChangeMappers] are functions of [localTimestamp]. *)
Definition bookChangeMappers (now : Z) : list (string * (Z → Made)) :=
  [ ("bitmex", λ _, New BitmexBookChangeMapper []);
    ("binance", λ localTimestamp,
       New BinanceBookChangeMapper
           [Str "binance"; Flag (bool_decide (isRealTime now localTimestamp = false))]);
    ("binance-us", λ localTimestamp,
       New BinanceBookChangeMapper
           [Str "binance-us"; Flag (bool_decide (isRealTime now localTimestamp = false))]);
    ("binance-jersey", λ localTimestamp,
       New BinanceBookChangeMapper
           [Str "binance-jersey"; Flag (bool_decide (isRealTime now localTimestamp = false))]);
    ("binance-futures", λ localTimestamp,
       New BinanceFuturesBookChangeMapper
           [Flag (bool_decide (isRealTime now localTimestamp = false))]);
    ("binance-dex", λ _, Existing binanceDexBookChangeMapper);
    ("bitfinex", λ _, New BitfinexBookChangeMapper [Str "bitfinex"]);
    ("bitfinex-derivatives", λ _, New BitfinexBookChangeMapper [Str "bitfinex-derivatives"]);
    ("bitfinex-alts", λ _, New BitfinexBookChangeMapper [Str "bitfinex-alts"]);
    ("bitflyer", λ _, Existing bitflyerBookChangeMapper);
    ("bitstamp", λ _, New BitstampBookChangeMapper []);
    ("coinbase", λ _, Existing coinbaseBookChangMapper);
    ("cryptofacilities", λ _, Existing cryptofacilitiesBookChangeMapper);
    ("deribit", λ _, Existing deribitBookChangeMapper);
    ("ftx", λ _, Existing ftxBookChangeMapper);
    ("gemini", λ _, Existing geminiBookChangeMapper);
    ("kraken", λ _, Existing krakenBookChangeMapper);
    ("okex", λ _, New OkexBookChangeMapper [Str "okex"; Str "spot"; Flag false]);
    ("okex-futures", λ localTimestamp,
       New OkexBookChangeMapper
           [Str "okex-futures"; Str "futures"; Flag (date_2019_12_05 <=? localTimestamp)%Z]);
    ("okex-swap", λ localTimestamp,
       New OkexBookChangeMapper
           [Str "okex-swap"; Str "swap"; Flag (date_2020_02_08 <=? localTimestamp)%Z]);
    ("okex-options", λ localTimestamp,
       New OkexBookChangeMapper
           [Str "okex-options"; Str "option"; Flag (date_2020_02_08 <=? localTimestamp)%Z]);
    ("huobi", λ _, New HuobiBookChangeMapper [Str "huobi"]);
    ("huobi-dm", λ _, New HuobiBookChangeMapper [Str "huobi-dm"]);
    ("bybit", λ localTimestamp,
       New BybitBookChangeMapper [Str "bybit"; Flag (date_2019_12_24 <=? localTimestamp)%Z]);
    ("okcoin", λ localTimestamp,
       New OkexBookChangeMapper
           [Str "okcoin"; Str "spot"; Flag (date_2020_02_13 <=? localTimestamp)%Z]);
    ("hitbtc", λ _, Existing hitBtcBookChangeMapper) ].

Definition derivativeTickersMappers : list (string * Made) :=
  [ ("bitmex", New BitmexDerivativeTickerMapper []);
    ("binance-futures", New BinanceFuturesDerivativeTickerMapper []);
    ("bitfinex-derivatives", New BitfinexDerivativeTickerMapper []);
    ("cryptofacilities", New CryptofacilitiesDerivativeTickerMapper []);
    ("deribit", New DeribitDerivativeTickerMapper []);
    ("okex-futures", New OkexDerivativeTickerMapper [Str "okex-futures"]);
    ("okex-swap", New OkexDerivativeTickerMapper [Str "okex-swap"]);
    ("bybit", New BybitDerivativeTickerMapper []) ].

(** The entry the table literal writes under the key, if it writes one. *)
Definition entry {A} (table : list (string * A)) (exchange : string) : option A :=
  (list_to_map table : gmap string A) !! exchange.

(** What [table[exchange]] evaluates to: the entry under the key; without
    one, the property of that name inherited from [Object.prototype]; and
    [undefined] when there is neither. *)
Inductive Property (A : Type) : Type :=
| Own (create : A)
| Inherited (name : string)
| Undefined.
Arguments Own {A}.
Arguments Inherited {A}.
Arguments Undefined {A}.

Definition get {A} (table : list (string * A)) (exchange : string) : Property A :=
  match entry table exchange with
  | Some create => Own create
  | None =>
    if bool_decide (exchange ∈ objectPrototypeNames) then Inherited exchange else Undefined
  end.

(** The mutable fields of an instance.  The Binance book-change mappers
    hold [symbolToDepthInfoMapping], the Binance ticker mapper the
    accumulators of its [pendingTickerInfoHelper]; [BinanceTradesMapper] has
    the read-only [_exchange] alone; the other classes hold their [foreign]
    state. *)
Inductive Fields : Type :=
| BookChangeFields (symbolToDepthInfoMapping : gmap string Binance.LocalDepthInfo)
| TickerFields (pendingTickers : gmap string (Binance.Ticker.PendingTickerInfo (num:=num)))
| NoFields
| DefinedElsewhere (state : foreign).

(** The fields right after construction: [symbolToDepthInfoMapping = {}]
    and [new PendingTickerInfoHelper()]. *)
Definition initialFields (cls : Class) (args : list Arg) : Fields :=
  match cls with
  | BinanceBookChangeMapper | BinanceFuturesBookChangeMapper => BookChangeFields ∅
  | BinanceFuturesDerivativeTickerMapper => TickerFields ∅
  | BinanceTradesMapper => NoFields
  | _ => DefinedElsewhere (foreignInitial cls args)
  end.

(** The heap of constructed mappers: an instance is the class and the
    arguments it was built from, with its fields; its address is its
    position. *)
Record Object : Type := mkObject {
  class : Class;
  ctorArgs : list Arg;
  fields : Fields
}.

(** Calling a table entry: an imported object is returned as it is, a
    [new] expression puts a new instance at the next address. *)
Definition make (body : Made) (heap : list Object) : Mapper * list Object :=
  match body with
  | Existing object => (Shared object, heap)
  | New cls args => (Instance (length heap), heap ++ [mkObject cls args (initialFields cls args)])
  end.

(** The Binance book-change mapper an instance is, by its class and
    constructor arguments: the futures subclass passes ['binance-futures']
    to the base constructor. *)
Definition asBookChangeMapper (object : Object)
    : option (Binance.MapperClass * Binance.BookChangeMapper) :=
  match class object, ctorArgs object with
  | BinanceBookChangeMapper, [Str exchange; Flag ignoreOverlap] =>
    Some (Binance.BinanceBookChangeMapper, Binance.mkMapper exchange ignoreOverlap)
  | BinanceFuturesBookChangeMapper, [Flag ignoreOverlap] =>
    Some (Binance.BinanceFuturesBookChangeMapper,
          Binance.mkMapper "binance-futures" ignoreOverlap)
  | _, _ => None
  end.

(** [mapper.map(message, localTimestamp)] on the book-change instance at
    [address], drained: what the call shows, and the heap afterwards.  The
    call assigns to fields of its own instance only. *)
Definition bookChangeMapAt (heap : list Object) (address : nat)
    (message : Binance.BinanceResponse Binance.DepthMessage) (localTimestamp : Z)
    : option (Binance.Outcome (num:=num) * list Object) :=
  match heap !! address with
  | Some object =>
    match asBookChangeMapper object, fields object with
    | Some (cls, this), BookChangeFields mapping =>
      let outcome := Binance.runMap Number cls this mapping message localTimestamp in
      Some (outcome,
            <[address := mkObject (class object) (ctorArgs object)
                                  (BookChangeFields (Binance.mappingAfter outcome))]> heap)
    | _, _ => None
    end
  | None => None
  end.

(** A [map] call, by the kind of mapper its message is meant for. *)
Inductive Call : Type :=
| DepthCall (message : Binance.BinanceResponse Binance.DepthMessage)
| TradeCall (message : Binance.BinanceResponse Binance.TradeData.data)
| TickerCall (message : Binance.BinanceResponse Binance.Ticker.Data)
| ForeignCall (message : raw).

(** What a drained [map] call shows. *)
Inductive Shown : Type :=
| BookChanges (outcome : Binance.Outcome (num:=num))
| Trades (trades : list (Binance.Trades.Trade (num:=num)))
| Tickers (tickers : list (Binance.Ticker.DerivativeTicker (num:=num)))
| Foreign (output : shown).

(** The calls a class is written for. *)
Definition understands (cls : Class) (call : Call) : bool :=
  match cls, call with
  | (BinanceBookChangeMapper | BinanceFuturesBookChangeMapper), DepthCall _ => true
  | (BinanceBookChangeMapper | BinanceFuturesBookChangeMapper), _ => false
  | BinanceTradesMapper, TradeCall _ => true
  | BinanceTradesMapper, _ => false
  | BinanceFuturesDerivativeTickerMapper, TickerCall _ => true
  | BinanceFuturesDerivativeTickerMapper, _ => false
  | _, ForeignCall _ => true
  | _, _ => false
  end.

(** [mapper.map(message, localTimestamp)] on the instance at [address],
    drained, for a call the class of the instance is written for: what it
    shows, and the heap afterwards.  [BinanceTradesMapper.map] assigns to
    nothing; every other [map] assigns to fields of its own instance. *)
Definition mapAt (heap : list Object) (address : nat) (call : Call) (localTimestamp : Z)
    : option (Shown * list Object) :=
  match heap !! address with
  | Some object =>
    match call, class object, ctorArgs object, fields object with
    | DepthCall message, _, _, _ =>
      prod_map BookChanges id <$> bookChangeMapAt heap address message localTimestamp
    | TradeCall message, BinanceTradesMapper, [Str _exchange], _ =>
      Some (Trades (Binance.Trades.map Number StringOf _exchange message localTimestamp), heap)
    | TickerCall message, BinanceFuturesDerivativeTickerMapper, args, TickerFields pending =>
      let result := Binance.Ticker.runMap Number isNaN pending message localTimestamp in
      Some (Tickers result.1,
            <[address := mkObject BinanceFuturesDerivativeTickerMapper args
                                  (TickerFields result.2)]> heap)
    | ForeignCall message, cls, args, DefinedElsewhere state =>
      let result := foreignMap cls args state message localTimestamp in
      Some (Foreign result.1,
            <[address := mkObject cls args (DefinedElsewhere result.2)]> heap)
    | _, _, _, _ => None
    end
  | None => None
  end.

(** The outcome of a normalize call: what it returns or throws, and the
    heap afterwards. *)
Definition Outcome : Type := (Thrown + Mapper) * list Object.

(** The call of what an inherited name gave.  [__proto__] gives the
    prototype object, which is no function: calling it throws a TypeError.
    Every other name gives a built-in function. *)
Definition callInherited (name : string) (argument : option Z) : Thrown + Mapper :=
  if decide (name = "__proto__") then inl TypeError
  else if builtinThrows name argument then inl TypeError
  else inr (NotAMapper name).

Definition normalizeTrades (exchange : string) (_localTimestamp : Z) (heap : list Object) : Outcome :=
  match get tradesMappers exchange with
  | Undefined => (inl (Error ("normalizeTrades: " +:+ exchange +:+ " not supported")), heap)
  | Own createTradesMapper =>
    let '(mapper, heap') := make createTradesMapper heap in (inr mapper, heap')
  | Inherited name => (callInherited name None, heap)
  end.

Definition normalizeBookChanges (now : Z) (exchange : string) (localTimestamp : Z)
    (heap : list Object) : Outcome :=
  match get (bookChangeMappers now) exchange with
  | Undefined => (inl (Error ("normalizeBookChanges: " +:+ exchange +:+ " not supported")), heap)
  | Own createBookChangesMapper =>
    let '(mapper, heap') := make (createBookChangesMapper localTimestamp) heap in
    (inr mapper, heap')
  | Inherited name => (callInherited name (Some localTimestamp), heap)
  end.

Definition normalizeDerivativeTickers (exchange : string) (_localTimestamp : Z)
    (heap : list Object) : Outcome :=
  match get derivativeTickersMappers exchange with
  | Undefined =>
    (inl (Error ("normalizeDerivativeTickers: " +:+ exchange +:+ " not supported")), heap)
  | Own createDerivativeTickerMapper =>
    let '(mapper, heap') := make createDerivativeTickerMapper heap in (inr mapper, heap')
  | Inherited name => (callInherited name None, heap)
  end.

(** *** Unsupported exchanges *)

(** The text of the error for [operation] and [exchange]. *)
Definition notSupported (operation exchange : string) : string :=
  operation +:+ ": " +:+ exchange +:+ " not supported".

(** A normalize call on [table].  With an entry it returns a mapper, an
    imported object or a new instance.  Without one, for a name that is not
    inherited from [Object.prototype], it throws the "not supported" error
    and constructs nothing.  For an inherited name the lookup finds the
    inherited property: no "not supported" error is thrown; the call of what
    was found throws a TypeError or returns a value that is no mapper, and
    nothing is constructed. *)
Definition failsOrReturns {A} (operation : string) (table : list (string * A))
    (exchange : string) (heap : list Object) (outcome : Outcome) : Prop :=
  match entry table exchange with
  | Some _ =>
    ∃ heap', (∃ object, outcome = (inr (Shared object), heap'))
             ∨ (∃ address, outcome = (inr (Instance address), heap'))
  | None =>
    if bool_decide (exchange ∈ objectPrototypeNames)
    then outcome = (inl TypeError, heap) ∨ outcome = (inr (NotAMapper exchange), heap)
    else outcome = (inl (Error (notSupported operation exchange)), heap)
  end.

Lemma append_assoc (x y z : string) : (x +:+ y) +:+ z = x +:+ y +:+ z.
Proof.
  induction x as [|ch x IH]; [done|].
  change (String ch ((x +:+ y) +:+ z) = String ch (x +:+ y +:+ z)). by rewrite IH.
Qed.

Lemma prefix_app_self (text rest : string) : String.prefix text (text +:+ rest) = true.
Proof.
  induction text as [|ch text IH]; simpl; [by destruct rest|].
  destruct (ascii_dec ch ch); [apply IH|done].
Qed.

Lemma includes_prefix (text part : string) :
  String.prefix part text = true → Js.includes text part = true.
Proof. intros Hpre. destruct text; cbn [Js.includes]; by rewrite Hpre. Qed.

Lemma includes_middle (before part after : string) :
  Js.includes (before +:+ part +:+ after) part = true.
Proof.
  induction before as [|ch before IH].
  - change ("" +:+ part +:+ after) with (part +:+ after).
    apply includes_prefix, prefix_app_self.
  - change (Js.includes (String ch before +:+ part +:+ after) part)
      with (String.prefix part (String ch (before +:+ part +:+ after))
            || Js.includes (before +:+ part +:+ after) part).
    rewrite IH. apply orb_true_r.
Qed.

Lemma make_returns body heap :
  ∃ heap', (∃ object, (let '(mapper, heap') := make body heap in
                       ((inr mapper, heap') : Outcome)) = (inr (Shared object), heap'))
           ∨ (∃ address, (let '(mapper, heap') := make body heap in
                          ((inr mapper, heap') : Outcome)) = (inr (Instance address), heap')).
Proof. destruct body as [object|cls args]; simpl; eauto. Qed.

Lemma callInherited_completes name argument heap :
  ((callInherited name argument, heap) : Outcome) = (inl TypeError, heap)
  ∨ ((callInherited name argument, heap) : Outcome) = (inr (NotAMapper name), heap).
Proof.
  unfold callInherited. case_decide; [by left|].
  destruct (builtinThrows name argument); [by left|by right].
Qed.

(** C8 (amended): each of the three normalize functions, called for an
    exchange that has no entry in its table and is not a property name
    inherited from [Object.prototype], throws at once an error whose message
    is "<operation>: <exchange> not supported", naming the operation and
    the exchange, and constructs nothing; called for an exchange with an
    entry it returns a mapper and does not throw.  Called for an inherited
    name, such as [toString] or [__proto__], it throws no such error: it
    calls what the lookup found. *)
Theorem normalize_fails_or_returns (now : Z) (exchange : string) (localTimestamp : Z)
    (heap : list Object) :
  failsOrReturns "normalizeTrades" tradesMappers exchange heap
                 (normalizeTrades exchange localTimestamp heap) ∧
  failsOrReturns "normalizeBookChanges" (bookChangeMappers now) exchange heap
                 (normalizeBookChanges now exchange localTimestamp heap) ∧
  failsOrReturns "normalizeDerivativeTickers" derivativeTickersMappers exchange heap
                 (normalizeDerivativeTickers exchange localTimestamp heap) ∧
  (∀ operation,
     Js.includes (notSupported operation exchange) operation = true ∧
     Js.includes (notSupported operation exchange) exchange = true ∧
     Js.includes (notSupported operation exchange) "not supported" = true).
Proof.
  split; [|split; [|split]].
  - unfold failsOrReturns, normalizeTrades, get.
    destruct (entry tradesMappers exchange) as [body|]; [apply make_returns|].
    destruct (bool_decide _); [apply callInherited_completes|done].
  - unfold failsOrReturns, normalizeBookChanges, get.
    destruct (entry (bookChangeMappers now) exchange) as [body|]; [apply make_returns|].
    destruct (bool_decide _); [apply callInherited_completes|done].
  - unfold failsOrReturns, normalizeDerivativeTickers, get.
    destruct (entry derivativeTickersMappers exchange) as [body|]; [apply make_returns|].
    destruct (bool_decide _); [apply callInherited_completes|done].
  - intros operation. unfold notSupported. split; [|split].
    + apply (includes_middle "").
    + rewrite <- append_assoc. apply includes_middle.
    + replace (operation +:+ ": " +:+ exchange +:+ " not supported")
        with ((operation +:+ ": " +:+ exchange +:+ " ") +:+ "not supported" +:+ "")
        by (by rewrite !append_assoc).
      apply includes_middle.
Qed.

(** *** New instances and shared objects *)

(** What a normalize call does, by the body of its table entry: a [new]
    expression puts one new instance, with the fields its class starts
    with, at the end of the heap and returns it; the name of an imported
    object returns that object and leaves the heap alone. *)
Definition constructsOrShares (body : option Made) (heap : list Object) (outcome : Outcome) : Prop :=
  match body with
  | Some (New cls args) =>
    outcome = (inr (Instance (length heap)),
               heap ++ [mkObject cls args (initialFields cls args)])
  | Some (Existing object) => outcome = (inr (Shared object), heap)
  | None => True
  end.

Lemma make_constructsOrShares body heap :
  constructsOrShares (Some body) heap (let '(mapper, heap') := make body heap in
                                       (inr mapper, heap')).
Proof. by destruct body. Qed.

(** The [new] expressions of the three tables, by class and arguments. *)
Definition constructed (now : Z) (cls : Class) (args : list Arg) : Prop :=
  (∃ exchange, (exchange, New cls args) ∈ tradesMappers)
  ∨ (∃ exchange create localTimestamp,
       (exchange, create) ∈ bookChangeMappers now ∧ create localTimestamp = New cls args)
  ∨ (∃ exchange, (exchange, New cls args) ∈ derivativeTickersMappers).

(** The update of the message, and every update buffered in the instance
    at [address], names in [s] a property of its own: no name inherited
    from [Object.prototype].  ([mapBookDepthUpdate] looks [s] up in the
    object [symbolToDepthInfoMapping]; under an inherited name it would find
    the shared prototype or one of its functions and assign to it.) *)
Definition ownNames (heap : list Object) (address : nat) (call : Call) : Prop :=
  match call with
  | DepthCall message =>
    (∀ d, Binance.data message = Binance.IsUpdate d →
          Binance.Depth.s d ∉ objectPrototypeNames) ∧
    (∀ object mapping sym info d,
       heap !! address = Some object →
       fields object = BookChangeFields mapping →
       mapping !! sym = Some info →
       Some d ∈ CircularBuffer.items (Binance.bufferedUpdates info) →
       Binance.Depth.s d ∉ objectPrototypeNames)
  | _ => True
  end.

Lemma bookChangeMapAt_other heap a b message localTimestamp outcome heap' :
  a ≠ b →
  bookChangeMapAt heap a message localTimestamp = Some (outcome, heap') →
  heap' !! b = heap !! b.
Proof.
  intros Hne. unfold bookChangeMapAt.
  destruct (heap !! a) as [object|]; [|done].
  destruct (asBookChangeMapper object) as [[cls this]|]; [|done].
  destruct (fields object); try done.
  intros [= _ <-]. by apply list_lookup_insert_ne.
Qed.

(** A [map] call writes to the instance it is called on and to no other
    address. *)
Lemma mapAt_other heap a b call localTimestamp output heap' :
  a ≠ b →
  mapAt heap a call localTimestamp = Some (output, heap') →
  heap' !! b = heap !! b.
Proof.
  intros Hne. unfold mapAt.
  destruct (heap !! a) as [object|] eqn:Hobject; [|done].
  destruct call as [message|message|message|message].
  - destruct (bookChangeMapAt heap a message localTimestamp) as [[outcome heap1]|] eqn:Hcall;
      [|done].
    simpl. intros [= _ <-].
    by apply (bookChangeMapAt_other heap a b message localTimestamp outcome).
  - destruct (class object); try done.
    destruct (ctorArgs object) as [|[text|flag] [|second rest]]; try done.
    by intros [= _ <-].
  - destruct (class object); try done. destruct (fields object); try done.
    intros [= _ <-]. by apply list_lookup_insert_ne.
  - destruct (fields object); try done.
    intros [= _ <-]. by apply list_lookup_insert_ne.
Qed.

(** What a [map] call at an address shows depends on the object at that
    address alone. *)
Lemma mapAt_local heap heap' b call localTimestamp :
  heap' !! b = heap !! b →
  fst <$> mapAt heap' b call localTimestamp = fst <$> mapAt heap b call localTimestamp.
Proof.
  intros Hsame. unfold mapAt, bookChangeMapAt. rewrite Hsame.
  destruct (heap !! b) as [object|]; [|done].
  destruct call as [message|message|message|message].
  - destruct (asBookChangeMapper object) as [[cls this]|]; [|done].
    by destruct (fields object).
  - destruct (class object); try done.
    by destruct (ctorArgs object) as [|[text|flag] [|second rest]].
  - destruct (class object); try done. by destruct (fields object).
  - by destruct (fields object).
Qed.

Ltac entries :=
  repeat match goal with
         | H : _ ∈ _ :: _ |- _ => apply elem_of_cons in H as [H|H]
         | H : _ ∈ [] |- _ => by apply elem_of_nil in H
         end.

(** Every instance the tables construct takes the calls its class is
    written for. *)
Lemma constructed_understands now cls args heap call localTimestamp :
  constructed now cls args →
  understands cls call = true →
  is_Some (mapAt (make (New cls args) heap).2 (length heap) call localTimestamp).
Proof.
  intros Hmade Hcall. unfold mapAt, bookChangeMapAt, make. cbn [snd].
  rewrite lookup_app_r by done. rewrite Nat.sub_diag. cbn [lookup list_lookup].
  destruct Hmade as [[exchange Hin]|[(exchange & create & ts & Hin & Hbody)|[exchange Hin]]].
  - unfold tradesMappers in Hin. entries; simplify_eq; destruct call; try done; by eexists.
  - unfold bookChangeMappers in Hin. entries; simplify_eq; destruct call; try done;
      by eexists.
  - unfold derivativeTickersMappers in Hin. entries; simplify_eq; destruct call; try done;
      by eexists.
Qed.

(** C7 (amended): a normalize call never caches.  For an exchange whose
    table entry is a [new] expression it constructs one new instance, at an
    address no earlier mapper has and with the fields its class starts with
    (empty per-symbol state for the Binance book-change and ticker
    mappers), and leaves the earlier instances as they are; two such calls
    never return the same instance.  Every instance takes the [map] calls
    its class is written for, and such a call on one instance, with updates
    that name no inherited property in [s], leaves every other instance,
    and so what any [map] call on it shows, unchanged.  For an exchange
    whose entry names an imported mapper object the call returns that
    object and constructs nothing. *)
Theorem normalize_constructs_or_shares (now : Z) (exchange : string) (localTimestamp : Z)
    (heap : list Object) :
  constructsOrShares (entry tradesMappers exchange) heap
                     (normalizeTrades exchange localTimestamp heap) ∧
  constructsOrShares ((λ create, create localTimestamp) <$> entry (bookChangeMappers now) exchange)
                     heap (normalizeBookChanges now exchange localTimestamp heap) ∧
  constructsOrShares (entry derivativeTickersMappers exchange) heap
                     (normalizeDerivativeTickers exchange localTimestamp heap) ∧
  (∀ cls args,
     heap !! length heap = None ∧
     (make (New cls args) heap).2 !! length heap
       = Some (mkObject cls args (initialFields cls args)) ∧
     ∀ address, address < length heap →
                (make (New cls args) heap).2 !! address = heap !! address) ∧
  (∀ args,
     initialFields BinanceBookChangeMapper args = BookChangeFields ∅ ∧
     initialFields BinanceFuturesBookChangeMapper args = BookChangeFields ∅ ∧
     initialFields BinanceFuturesDerivativeTickerMapper args = TickerFields ∅) ∧
  (∀ body1 body2 heap1 heap2 heap3 address1 address2,
     make body1 heap = (Instance address1, heap1) →
     length heap1 ≤ length heap2 →
     make body2 heap2 = (Instance address2, heap3) →
     address1 ≠ address2) ∧
  (∀ cls args call localTs,
     constructed now cls args →
     understands cls call = true →
     is_Some (mapAt (make (New cls args) heap).2 (length heap) call localTs)) ∧
  (∀ a b call localTs output heap',
     a ≠ b →
     ownNames heap a call →
     mapAt heap a call localTs = Some (output, heap') →
     heap' !! b = heap !! b ∧
     ∀ call' localTs',
       fst <$> mapAt heap' b call' localTs' = fst <$> mapAt heap b call' localTs').
Proof.
  split; [|split; [|split; [|split; [|split; [|split; [|split]]]]]].
  - unfold normalizeTrades, get.
    destruct (entry tradesMappers exchange) as [body|]; [|done].
    apply make_constructsOrShares.
  - unfold normalizeBookChanges, get.
    destruct (entry (bookChangeMappers now) exchange) as [body|]; [|done].
    apply make_constructsOrShares.
  - unfold normalizeDerivativeTickers, get.
    destruct (entry derivativeTickersMappers exchange) as [body|]; [|done].
    apply make_constructsOrShares.
  - intros cls args. unfold make. cbn [snd].
    split; [by apply lookup_ge_None|]. split.
    + rewrite lookup_app_r by done. by rewrite Nat.sub_diag.
    + intros address Hlt. by apply lookup_app_l.
  - done.
  - intros body1 body2 heap1 heap2 heap3 address1 address2 Hfirst Hgrow Hsecond.
    destruct body1 as [|cls1 args1]; [done|]. destruct body2 as [|cls2 args2]; [done|].
    simpl in Hfirst, Hsecond.
    injection Hfirst as <- <-. injection Hsecond as <- _.
    rewrite length_app in Hgrow. simpl in Hgrow. lia.
  - intros cls args call localTs. apply constructed_understands.
  - intros a b call localTs output heap' Hne _ Hcall.
    pose proof (mapAt_other heap a b call localTs output heap' Hne Hcall) as Hsame.
    split; [done|]. intros call' localTs'. by apply mapAt_local.
Qed.

(** *** Which exchanges, and how strict *)

Lemma entry_is_Some {A} (table : list (string * A)) (exchange : string) :
  is_Some (entry table exchange) ↔ exchange ∈ table.*1.
Proof.
  unfold entry. rewrite <- elem_of_dom, dom_list_to_map_L, elem_of_list_to_set. done.
Qed.

(** Trades and book changes are supported for the same exchanges, and
    derivative tickers for some of those only: [normalizeTrades] has an
    entry exactly where [normalizeBookChanges] has one, and wherever
    [normalizeDerivativeTickers] has one. *)
Theorem supported_exchanges (now : Z) (exchange : string) :
  (is_Some (entry tradesMappers exchange)
   ↔ is_Some (entry (bookChangeMappers now) exchange)) ∧
  (is_Some (entry derivativeTickersMappers exchange)
   → is_Some (entry tradesMappers exchange)).
Proof.
  rewrite !entry_is_Some. split; [done|].
  intros Hin. unfold derivativeTickersMappers in Hin. cbn [fmap list_fmap fst] in Hin.
  repeat match goal with
         | H : _ ∈ _ :: _ |- _ => apply elem_of_cons in H as [->|H]
         | H : _ ∈ [] |- _ => by apply elem_of_nil in H
         end; unfold tradesMappers; cbn [fmap list_fmap fst]; repeat constructor.
Qed.

Lemma historical_flag (now localTimestamp : Z) :
  bool_decide (isRealTime now localTimestamp = false)
  = bool_decide (localTimestamp + THREE_MINUTES_IN_MS ≤ now)%Z.
Proof. apply bool_decide_ext. unfold isRealTime. by rewrite Z.ltb_ge. Qed.

(** Live feeds get a strict Binance book-change mapper, replays a
    tolerant one: for binance, binance-us and binance-jersey the instance
    that [normalizeBookChanges] constructs ignores overlap errors exactly
    when [localTimestamp] lies three minutes or more behind the clock, and
    its first [map] call runs from the empty state with that setting. *)
Theorem binance_mapper_is_tolerant_for_history (now : Z) (exchange : string)
    (localTimestamp : Z) (heap : list Object) :
  exchange ∈ ["binance"; "binance-us"; "binance-jersey"] →
  let historical := bool_decide (localTimestamp + THREE_MINUTES_IN_MS ≤ now)%Z in
  let object := mkObject BinanceBookChangeMapper [Str exchange; Flag historical]
                         (BookChangeFields ∅) in
  normalizeBookChanges now exchange localTimestamp heap
  = (inr (Instance (length heap)), heap ++ [object]) ∧
  ∀ message localTs,
    fst <$> bookChangeMapAt (heap ++ [object]) (length heap) message localTs
    = Some (Binance.runMap Number Binance.BinanceBookChangeMapper
                           (Binance.mkMapper exchange historical) ∅ message localTs).
Proof.
  intros Hin historical object. split.
  - unfold object, historical. rewrite <- historical_flag.
    repeat match goal with
           | H : _ ∈ _ :: _ |- _ => apply elem_of_cons in H as [->|H]
           | H : _ ∈ [] |- _ => by apply elem_of_nil in H
           end; reflexivity.
  - intros message localTs. unfold bookChangeMapAt.
    rewrite lookup_app_r by done. rewrite Nat.sub_diag. done.
Qed.

End tables.


(** *** Concrete calls *)

(** The classes of the other exchange modules play no part in the calls
    below: their state, their messages and what they show are left empty. *)
Definition noForeignState (cls : Class) (args : list Arg) : unit := ().

Definition noForeignMap (cls : Class) (args : list Arg) (state : unit) (message : unit)
    (localTimestamp : Z) : unit * unit := ((), ()).

(** The built-in functions of [Object.prototype] in strict-mode code, as
    the code of a module is.  Called as a plain function they have no
    receiver: [Object] ([constructor]) and [toString] return all the same,
    [isPrototypeOf] returns unless it is given an object, here the [Date],
    and every other one throws a TypeError. *)
Definition strictModeThrows (name : string) (argument : option Z) : bool :=
  if decide (name = "constructor") then false
  else if decide (name = "toString") then false
  else if decide (name = "isPrototypeOf") then bool_decide (is_Some argument)
  else true.

(** C7 as stated fails: two calls of [normalizeTrades] for bitmex return
    one and the same imported object, and construct nothing. *)
Lemma normalizeTrades_bitmex_returns_shared_object :
  normalizeTrades (num:=string) noForeignState strictModeThrows "bitmex" 1577836800000 []
  = (inr (Shared bitmexTradesMapper), [])
  ∧ normalizeTrades (num:=string) noForeignState strictModeThrows "bitmex" 1577836860000
      (normalizeTrades (num:=string) noForeignState strictModeThrows
                       "bitmex" 1577836800000 []).2
    = (inr (Shared bitmexTradesMapper), []).
Proof. split; reflexivity. Qed.

(** Two calls of [normalizeBookChanges] for binance, for historical data
    (the clock is a day past [localTimestamp]): two instances, each tolerant
    and with an empty [symbolToDepthInfoMapping]. *)
Definition twoBinanceMappers : list (Object (num:=string) (foreign:=unit)) :=
  [mkObject BinanceBookChangeMapper [Str "binance"; Flag true] (BookChangeFields ∅);
   mkObject BinanceBookChangeMapper [Str "binance"; Flag true] (BookChangeFields ∅)].

Lemma normalize_constructs_or_shares_witness :
  normalizeBookChanges (num:=string) 1000 noForeignState strictModeThrows
                       1577923200000 "binance" 1577836800000 []
  = (inr (Instance 0),
     [mkObject BinanceBookChangeMapper [Str "binance"; Flag true] (BookChangeFields ∅)])
  ∧ normalizeBookChanges (num:=string) 1000 noForeignState strictModeThrows
      1577923200000 "binance" 1577836800000
      [mkObject BinanceBookChangeMapper [Str "binance"; Flag true] (BookChangeFields ∅)]
    = (inr (Instance 1), twoBinanceMappers)
  ∧ ∃ output heap',
      mapAt Binance.sampleNumber Binance.Ticker.sampleIsNaN (λ _, "") noForeignMap
            twoBinanceMappers 0
            (DepthCall (Binance.onDepthStream (Binance.IsSnapshot Binance.snapshot100))) 5
      = Some (output, heap')
      ∧ heap' !! 1 = twoBinanceMappers !! 1.
Proof.
  split; [|split].
  - exact (proj1 (proj2 (normalize_constructs_or_shares
                           1000 Binance.sampleNumber Binance.Ticker.sampleIsNaN (λ _, "")
                           noForeignState noForeignMap strictModeThrows
                           1577923200000 "binance" 1577836800000 []))).
  - exact (proj1 (proj2 (normalize_constructs_or_shares
                           1000 Binance.sampleNumber Binance.Ticker.sampleIsNaN (λ _, "")
                           noForeignState noForeignMap strictModeThrows
                           1577923200000 "binance" 1577836800000
                           [mkObject BinanceBookChangeMapper [Str "binance"; Flag true]
                                     (BookChangeFields ∅)]))).
  - destruct (mapAt Binance.sampleNumber Binance.Ticker.sampleIsNaN (λ _, "") noForeignMap
                    twoBinanceMappers 0
                    (DepthCall (Binance.onDepthStream
                                  (Binance.IsSnapshot Binance.snapshot100))) 5)
      as [[output heap']|] eqn:Hcall; [|discriminate Hcall].
    exists output, heap'. split; [reflexivity|].
    refine (proj1 (proj2 (proj2 (proj2 (proj2 (proj2 (proj2 (proj2
              (normalize_constructs_or_shares
                 1000 Binance.sampleNumber Binance.Ticker.sampleIsNaN (λ _, "")
                 noForeignState noForeignMap strictModeThrows
                 1577923200000 "binance" 1577836800000 twoBinanceMappers)))))))
              0 1 _ 5%Z output heap' _ _ Hcall)).
    + discriminate.
    + split; [intros d Hd; discriminate Hd|].
      intros object mapping sym info d [= <-] [= <-] Hinfo.
      by rewrite lookup_empty in Hinfo.
Defined.

(** An exchange without a ticker mapper, and one with. *)
Lemma normalize_fails_or_returns_witness :
  normalizeDerivativeTickers (num:=string) noForeignState strictModeThrows
                             "binance" 1577836800000 []
  = (inl (Error "normalizeDerivativeTickers: binance not supported"), [])
  ∧ ∃ heap',
      (∃ object,
         normalizeDerivativeTickers (num:=string) noForeignState strictModeThrows
                                    "binance-futures" 1577836800000 []
         = (inr (Shared object), heap'))
      ∨ (∃ address,
           normalizeDerivativeTickers (num:=string) noForeignState strictModeThrows
                                      "binance-futures" 1577836800000 []
           = (inr (Instance address), heap')).
Proof.
  split.
  - exact (proj1 (proj2 (proj2 (normalize_fails_or_returns
                                  1000 (num:=string) noForeignState strictModeThrows
                                  0 "binance" 1577836800000 [])))).
  - exact (proj1 (proj2 (proj2 (normalize_fails_or_returns
                                  1000 (num:=string) noForeignState strictModeThrows
                                  0 "binance-futures" 1577836800000 [])))).
Defined.

(** C8 as stated fails for the names every object inherits.  Neither
    [__proto__] nor [toString] has an entry in [tradesMappers], and yet
    [normalizeTrades] throws no "not supported" error for them: under
    [__proto__] the lookup finds the prototype object, whose call throws a
    TypeError, and under [toString] a built-in function, whose result is
    returned as if it were a mapper. *)
Lemma normalizeTrades_inherited_name_is_looked_up :
  entry tradesMappers "__proto__" = None
  ∧ normalizeTrades (num:=string) noForeignState strictModeThrows
                    "__proto__" 1577836800000 []
    = (inl TypeError, [])
  ∧ entry tradesMappers "toString" = None
  ∧ normalizeTrades (num:=string) noForeignState strictModeThrows
                    "toString" 1577836800000 []
    = (inr (NotAMapper "toString"), []).
Proof. repeat split. Qed.

(** Replaying 1 January 2020 a day later gives a tolerant mapper;
    following it live, a strict one. *)
Lemma binance_mapper_is_tolerant_for_history_witness :
  normalizeBookChanges (num:=string) 1000 noForeignState strictModeThrows
                       1577923200000 "binance-us" 1577836800000 []
  = (inr (Instance 0),
     [mkObject BinanceBookChangeMapper [Str "binance-us"; Flag true] (BookChangeFields ∅)])
  ∧ normalizeBookChanges (num:=string) 1000 noForeignState strictModeThrows
                         1577836801000 "binance-us" 1577836800000 []
    = (inr (Instance 0),
       [mkObject BinanceBookChangeMapper [Str "binance-us"; Flag false] (BookChangeFields ∅)]).
Proof.
  split.
  - apply (binance_mapper_is_tolerant_for_history 1000 Binance.sampleNumber
             noForeignState strictModeThrows 1577923200000 "binance-us" 1577836800000 []).
    by repeat constructor.
  - apply (binance_mapper_is_tolerant_for_history 1000 Binance.sampleNumber
             noForeignState strictModeThrows 1577836801000 "binance-us" 1577836800000 []).
    by repeat constructor.
Defined.

End Registry.
